(** * AI Doc: the symptom-checker's session logic

    A shallow embedding of the stateful part of the application:

    - [getDiagnosis] (src/services/gemini.ts): one request to the generative
      model and the parsing of its textual reply;
    - the [App] component: its six state cells, the mount effect
      that reads the browser's local storage, [handleAcceptDisclaimer],
      [handleDiagnosis], [clearHistory] and the submit button's [disabled]
      expression;
    - the handlers the component attaches inline (the textarea, the
      history entries, the Clear button, the gate's buttons and backdrop),
      as the events of a session, and sessions one after the other on the
      same device;
    - what the component function reads from [result] and [history] when
      it renders, as far as it can throw.

    JavaScript strings are sequences of UTF-16 code units, JavaScript values
    that travel through [JSON.parse] are modelled by [JSValue], the browser's
    local storage is a finite map from strings to strings, and the one
    suspension point of [handleDiagnosis] (the [await]) splits it in a part
    that runs when the form is submitted and a part that runs when the
    request settles. *)

From Stdlib Require Import String Ascii NArith List Bool Lia DecimalString.
From Stdlib Require DecimalFacts DecimalN.
From stdpp Require Import base option list countable gmap.

Local Open Scope N_scope.

Set Warnings "-register-all".

(** ** JavaScript strings *)

(** A string is its sequence of UTF-16 code units. *)
Abbreviation jsstring := (list N).

(** The string a source literal denotes (all literals of the program are
    ASCII). *)
Definition str (s : string) : jsstring :=
  List.map N_of_ascii (list_ascii_of_string s).

(** [String.prototype.trim] removes WhiteSpace and LineTerminator code
    points from both ends (ECMA-262, 22.1.3.32). *)
Definition is_trim_space (c : N) : bool :=
  ((9 <=? c) && (c <=? 13))
  || (c =? 32) || (c =? 160) || (c =? 5760)
  || ((8192 <=? c) && (c <=? 8202))
  || (c =? 8232) || (c =? 8233) || (c =? 8239) || (c =? 8287)
  || (c =? 12288) || (c =? 65279).

Fixpoint trim_start (s : jsstring) : jsstring :=
  match s with
  | c :: r => if is_trim_space c then trim_start r else s
  | [] => []
  end.

Definition trim (s : jsstring) : jsstring :=
  rev (trim_start (rev (trim_start s))).

(** Truthiness of a string: only the empty string is falsy. *)
Definition truthy (s : jsstring) : bool :=
  match s with [] => false | _ :: _ => true end.

(** ** JavaScript values built by [JSON.parse] *)

(** A number keeps the decimal text it was written with; the rounding to an
    IEEE double that JavaScript performs is outside the model, and nothing in
    the program computes with these numbers. *)
Inductive JSValue : Type :=
| JNull
| JBool (b : bool)
| JNum (lexeme : jsstring)
| JStr (s : jsstring)
| JArr (items : list JSValue)
| JObj (props : list (jsstring * JSValue)).

(** Decimal text of a natural number, as [Number::toString] prints an
    integer such as [Date.now()]. *)
Definition digits_of_N (n : N) : jsstring :=
  str (NilZero.string_of_uint (N.to_uint n)).

(** The platform's [JSON] object, after ECMA-262 (25.5) and ECMA-404: it is
    not code of the application, which only calls it. The parser is total:
    a lexer and a pushdown automaton, each a structural recursion. *)
Module JSON.

Definition is_digit (c : N) : bool := (48 <=? c) && (c <=? 57).

Definition is_ws (c : N) : bool :=
  (c =? 9) || (c =? 10) || (c =? 13) || (c =? 32).

(** *** Numbers: an optional minus sign; a zero, or a nonzero digit and
    more digits; optionally a point and digits; optionally [e] or [E], a
    sign and digits. *)

Inductive num_state : Type :=
| NStart | NMinus | NZero | NInt | NDot | NFrac | NE | NESign | NExp.

Definition num_step (q : num_state) (c : N) : option num_state :=
  match q with
  | NStart =>
      if c =? 45 then Some NMinus
      else if c =? 48 then Some NZero
      else if is_digit c then Some NInt else None
  | NMinus =>
      if c =? 48 then Some NZero
      else if is_digit c then Some NInt else None
  | NZero =>
      if c =? 46 then Some NDot
      else if (c =? 101) || (c =? 69) then Some NE else None
  | NInt =>
      if is_digit c then Some NInt
      else if c =? 46 then Some NDot
      else if (c =? 101) || (c =? 69) then Some NE else None
  | NDot => if is_digit c then Some NFrac else None
  | NFrac =>
      if is_digit c then Some NFrac
      else if (c =? 101) || (c =? 69) then Some NE else None
  | NE =>
      if (c =? 43) || (c =? 45) then Some NESign
      else if is_digit c then Some NExp else None
  | NESign => if is_digit c then Some NExp else None
  | NExp => if is_digit c then Some NExp else None
  end.

Definition num_final (q : num_state) : bool :=
  match q with
  | NZero | NInt | NFrac | NExp => true
  | _ => false
  end.

Fixpoint num_run (q : num_state) (s : jsstring) : bool :=
  match s with
  | [] => num_final q
  | c :: r =>
      match num_step q c with
      | Some q' => num_run q' r
      | None => false
      end
  end.

Definition is_number (s : jsstring) : bool := num_run NStart s.

(** A code unit that can occur in a number. *)
Definition is_num_char (c : N) : bool :=
  is_digit c || (c =? 45) || (c =? 43) || (c =? 46) || (c =? 101) || (c =? 69).

Fixpoint num_span (s : jsstring) : jsstring :=
  match s with
  | c :: r => if is_num_char c then c :: num_span r else []
  | [] => []
  end.

(** *** String literals *)

Definition hex_val (c : N) : option N :=
  if is_digit c then Some (c - 48)
  else if (97 <=? c) && (c <=? 102) then Some (c - 87)
  else if (65 <=? c) && (c <=? 70) then Some (c - 55)
  else None.

Definition hex4 (a b c d : N) : option N :=
  match hex_val a, hex_val b, hex_val c, hex_val d with
  | Some x, Some y, Some z, Some w => Some (((x * 16 + y) * 16 + z) * 16 + w)
  | _, _, _, _ => None
  end.

Definition unescape (c : N) : option N :=
  if c =? 34 then Some 34
  else if c =? 92 then Some 92
  else if c =? 47 then Some 47
  else if c =? 98 then Some 8
  else if c =? 102 then Some 12
  else if c =? 110 then Some 10
  else if c =? 114 then Some 13
  else if c =? 116 then Some 9
  else None.

(** [scan_string s] reads the body of a string literal whose opening quote
    was just consumed: the decoded string and the number of code units
    read, closing quote included. *)
Fixpoint scan_string (s : jsstring) : option (jsstring * nat) :=
  match s with
  | [] => None
  | 34 :: _ => Some ([], 1%nat)
  | 92 :: 117 :: a :: b :: c :: d :: r =>
      match hex4 a b c d, scan_string r with
      | Some u, Some (body, n) => Some (u :: body, (6 + n)%nat)
      | _, _ => None
      end
  | 92 :: e :: r =>
      match unescape e, scan_string r with
      | Some u, Some (body, n) => Some (u :: body, (2 + n)%nat)
      | _, _ => None
      end
  | c :: r =>
      if (c <? 32) || (c =? 92) then None
      else
        match scan_string r with
        | Some (body, n) => Some (c :: body, S n)
        | None => None
        end
  end.

(** *** Tokens *)

Inductive token : Type :=
| TLBrace | TRBrace | TLBracket | TRBracket | TColon | TComma
| TString (s : jsstring) | TNumber (lexeme : jsstring)
| TTrue | TFalse | TNull.

Fixpoint starts_with (p s : jsstring) : bool :=
  match p, s with
  | [], _ => true
  | a :: p', b :: s' => (a =? b) && starts_with p' s'
  | _ :: _, [] => false
  end.

(** [lex skip s]: the tokens of [s] after its first [skip] code units,
    which belong to the token read last. *)
Fixpoint lex (skip : nat) (s : jsstring) : option (list token) :=
  match s with
  | [] => Some []
  | c :: r =>
      match skip with
      | S k => lex k r
      | O =>
          let emit (t : token) (k : nat) := cons t <$> lex k r in
          if is_ws c then lex O r
          else if c =? 123 then emit TLBrace O
          else if c =? 125 then emit TRBrace O
          else if c =? 91 then emit TLBracket O
          else if c =? 93 then emit TRBracket O
          else if c =? 58 then emit TColon O
          else if c =? 44 then emit TComma O
          else if c =? 34 then
            match scan_string r with
            | Some (body, n) => emit (TString body) n
            | None => None
            end
          else if starts_with (str "true") s then emit TTrue 3%nat
          else if starts_with (str "false") s then emit TFalse 4%nat
          else if starts_with (str "null") s then emit TNull 3%nat
          else if is_num_char c then
            let lexeme := num_span s in
            if is_number lexeme
            then emit (TNumber lexeme) (Nat.pred (length lexeme))
            else None
          else None
      end
  end.

(** *** Objects: own properties in the order JavaScript enumerates them *)

Definition all_digits (s : jsstring) : bool := forallb is_digit s.

Fixpoint decimal_value (acc : N) (s : jsstring) : N :=
  match s with
  | [] => acc
  | c :: r => decimal_value (acc * 10 + (c - 48)) r
  end.

(** An array index is the canonical decimal text of an integer below
    2^32 - 1. *)
Definition array_index (k : jsstring) : option N :=
  match k with
  | [] => None
  | c :: r =>
      if all_digits k && ((length k =? 1)%nat || negb (c =? 48))
         && (length k <=? 10)%nat
      then
        let n := decimal_value 0 k in
        if n <? 4294967295 then Some n else None
      else None
  end.

(** [define k v props] is CreateDataProperty on an ordinary object: an
    existing property keeps its place and takes the new value; a new array
    index goes among the array indices in ascending order, before every
    other key; any other new key goes last. *)
Fixpoint replace_prop (k : jsstring) (v : JSValue)
    (props : list (jsstring * JSValue)) : option (list (jsstring * JSValue)) :=
  match props with
  | [] => None
  | (k', v') :: rest =>
      if decide (k = k') then Some ((k, v) :: rest)
      else cons (k', v') <$> replace_prop k v rest
  end.

Fixpoint insert_index (i : N) (k : jsstring) (v : JSValue)
    (props : list (jsstring * JSValue)) : list (jsstring * JSValue) :=
  match props with
  | [] => [(k, v)]
  | (k', v') :: rest =>
      match array_index k' with
      | Some j =>
          if i <? j then (k, v) :: props
          else (k', v') :: insert_index i k v rest
      | None => (k, v) :: props
      end
  end.

Definition define (k : jsstring) (v : JSValue)
    (props : list (jsstring * JSValue)) : list (jsstring * JSValue) :=
  match replace_prop k v props with
  | Some props' => props'
  | None =>
      match array_index k with
      | Some i => insert_index i k v props
      | None => props ++ [(k, v)]
      end
  end.

(** *** The grammar, as a pushdown automaton over the tokens *)

(** An open container: an array with its elements so far (last first), or
    an object with its properties so far and the key awaiting its value. *)
Inductive frame : Type :=
| FArr (acc : list JSValue)
| FObj (props : list (jsstring * JSValue)) (key : option jsstring).

Inductive expect : Type :=
| EValue          (* a value *)
| EArrFirst       (* a value or the closing bracket *)
| EObjFirst       (* a key or the closing brace *)
| EKey            (* a key *)
| EColon          (* the colon after a key *)
| EMore           (* a comma or the closing bracket or brace *)
| EEnd (v : JSValue).  (* the end of the text *)

(** A complete value goes to the innermost open container, or is the
    result. *)
Definition put (v : JSValue) (stack : list frame) : option (expect * list frame) :=
  match stack with
  | [] => Some (EEnd v, [])
  | FArr acc :: st => Some (EMore, FArr (v :: acc) :: st)
  | FObj props (Some k) :: st => Some (EMore, FObj (define k v props) None :: st)
  | FObj _ None :: _ => None
  end.

Definition open_value (t : token) (stack : list frame) : option (expect * list frame) :=
  match t with
  | TLBrace => Some (EObjFirst, FObj [] None :: stack)
  | TLBracket => Some (EArrFirst, FArr [] :: stack)
  | TString s => put (JStr s) stack
  | TNumber n => put (JNum n) stack
  | TTrue => put (JBool true) stack
  | TFalse => put (JBool false) stack
  | TNull => put JNull stack
  | TRBrace | TRBracket | TColon | TComma => None
  end.

Definition close_array (stack : list frame) : option (expect * list frame) :=
  match stack with
  | FArr acc :: st => put (JArr (rev acc)) st
  | _ => None
  end.

Definition close_object (stack : list frame) : option (expect * list frame) :=
  match stack with
  | FObj props None :: st => put (JObj props) st
  | _ => None
  end.

Definition take_key (t : token) (stack : list frame) : option (expect * list frame) :=
  match t, stack with
  | TString k, FObj props None :: st => Some (EColon, FObj props (Some k) :: st)
  | _, _ => None
  end.

Definition step (e : expect) (stack : list frame) (t : token)
    : option (expect * list frame) :=
  match e with
  | EValue => open_value t stack
  | EArrFirst =>
      match t with
      | TRBracket => close_array stack
      | _ => open_value t stack
      end
  | EObjFirst =>
      match t with
      | TRBrace => close_object stack
      | _ => take_key t stack
      end
  | EKey => take_key t stack
  | EColon =>
      match t with
      | TColon => Some (EValue, stack)
      | _ => None
      end
  | EMore =>
      match t, stack with
      | TComma, FArr _ :: _ => Some (EValue, stack)
      | TComma, FObj _ _ :: _ => Some (EKey, stack)
      | TRBracket, _ => close_array stack
      | TRBrace, _ => close_object stack
      | _, _ => None
      end
  | EEnd _ => None
  end.

Fixpoint run (e : expect) (stack : list frame) (ts : list token) : option JSValue :=
  match ts with
  | [] =>
      match e, stack with
      | EEnd v, [] => Some v
      | _, _ => None
      end
  | t :: ts' =>
      match step e stack t with
      | Some (e', stack') => run e' stack' ts'
      | None => None
      end
  end.

(** [JSON.parse text]: the value of a JSON text, [None] when the built-in
    throws a SyntaxError. *)
Definition parse (text : jsstring) : option JSValue :=
  match lex O text with
  | Some ts => run EValue [] ts
  | None => None
  end.

(** *** [JSON.stringify] *)

Definition hex_digit (n : N) : N := if n <? 10 then 48 + n else 87 + n.

(** The escape of a code unit as a backslash, [u] and four lower-case
    hexadecimal digits. *)
Definition unicode_escape (c : N) : jsstring :=
  [92; 117; hex_digit (c / 4096 mod 16); hex_digit (c / 256 mod 16);
   hex_digit (c / 16 mod 16); hex_digit (c mod 16)].

Definition is_lead (c : N) : bool := (55296 <=? c) && (c <=? 56319).
Definition is_trail (c : N) : bool := (56320 <=? c) && (c <=? 57343).

(** QuoteJSONString without the enclosing quotes: the short escapes, the
    other control characters and the lone surrogates as unicode escapes,
    everything else as it is. *)
Fixpoint quote_body (s : jsstring) : jsstring :=
  match s with
  | [] => []
  | c :: r =>
      if c =? 8 then [92; 98] ++ quote_body r
      else if c =? 9 then [92; 116] ++ quote_body r
      else if c =? 10 then [92; 110] ++ quote_body r
      else if c =? 12 then [92; 102] ++ quote_body r
      else if c =? 13 then [92; 114] ++ quote_body r
      else if c =? 34 then [92; 34] ++ quote_body r
      else if c =? 92 then [92; 92] ++ quote_body r
      else if c <? 32 then unicode_escape c ++ quote_body r
      else if is_lead c then
        match r with
        | d :: r' =>
            if is_trail d then c :: d :: quote_body r'
            else unicode_escape c ++ quote_body r
        | [] => unicode_escape c
        end
      else if is_trail c then unicode_escape c ++ quote_body r
      else c :: quote_body r
  end.

Definition quote (s : jsstring) : jsstring := [34] ++ quote_body s ++ [34].

Fixpoint join (parts : list jsstring) : jsstring :=
  match parts with
  | [] => []
  | [p] => p
  | p :: rest => p ++ [44] ++ join rest
  end.

(** [JSON.stringify value] with no replacer and no indentation. Every
    [JSValue] is serialisable, so the result is always a string. *)
Fixpoint stringify (v : JSValue) : jsstring :=
  match v with
  | JNull => str "null"
  | JBool true => str "true"
  | JBool false => str "false"
  | JNum lexeme => lexeme
  | JStr s => quote s
  | JArr items => [91] ++ join (List.map stringify items) ++ [93]
  | JObj props =>
      [123]
      ++ join (List.map (fun p => match p with
                                  | (k, x) => quote k ++ [58] ++ stringify x
                                  end) props)
      ++ [125]
  end.

End JSON.



(** ** Property access and iteration *)

(** [o.k] on a parsed value: the own property of an object, [None] for
    [undefined]. *)
Fixpoint lookup_prop (k : jsstring) (props : list (jsstring * JSValue)) : option JSValue :=
  match props with
  | [] => None
  | (k', v) :: rest => if decide (k = k') then Some v else lookup_prop k rest
  end.

Definition get_prop (k : jsstring) (v : JSValue) : option JSValue :=
  match v with
  | JObj props => lookup_prop k props
  | _ => None
  end.

(** The code points of a string, each as a string: what iterating a string
    yields. *)
Fixpoint code_points (s : jsstring) : list JSValue :=
  match s with
  | [] => []
  | c :: r =>
      match r with
      | d :: r' =>
          if JSON.is_lead c && JSON.is_trail d
          then JStr [c; d] :: code_points r'
          else JStr [c] :: code_points r
      | [] => [JStr [c]]
      end
  end.

(** The elements a spread [...v] contributes to an array literal; [None]
    when [v] is not iterable and the spread throws a TypeError. *)
Definition spread (v : JSValue) : option (list JSValue) :=
  match v with
  | JArr items => Some items
  | JStr s => Some (code_points s)
  | JNull | JBool _ | JNum _ | JObj _ => None
  end.

(** [Array.prototype.slice(a, b)] for indices [0 <= a <= b]. *)
Definition slice {A : Type} (a b : nat) (l : list A) : list A :=
  firstn (b - a) (skipn a l).

(** ** Exceptions and the environment *)

Inductive Exn : Type :=
| SyntaxError
| TypeError
| Error (message : jsstring)
| ServiceError (detail : jsstring).  (* whatever the model's client rejects with *)

Inductive Outcome (A : Type) : Type :=
| Returns (a : A)
| Throws (e : Exn).
Arguments Returns {A} a.
Arguments Throws {A} e.

Inductive LogArg : Type :=
| LogText (s : jsstring)
| LogExn (e : Exn).

(** The request [ai.models.generateContent] receives (its response schema
    is a constant and is left out). *)
Record Request : Type := {
  model : jsstring;
  contents : jsstring;
  responseMimeType : jsstring
}.

(** How the pending request settles: the promise rejects, or it resolves
    with a response whose [text] is a string or [undefined]. *)
Inductive Reply : Type :=
| Rejected (reason : Exn)
| Fulfilled (text : option jsstring).

(** Everything the program acts on outside its own state. *)
Record World : Type := {
  storage : gmap jsstring jsstring;   (* window.localStorage *)
  alerts : list jsstring;             (* window.alert, oldest first *)
  console : list (list LogArg);       (* console.error, oldest first *)
  requests : list Request             (* calls of generateContent, oldest first *)
}.

Definition with_storage (m : gmap jsstring jsstring) (w : World) : World :=
  {| storage := m; alerts := alerts w; console := console w; requests := requests w |}.

Definition alert (msg : jsstring) (w : World) : World :=
  {| storage := storage w; alerts := alerts w ++ [msg];
     console := console w; requests := requests w |}.

Definition console_error (args : list LogArg) (w : World) : World :=
  {| storage := storage w; alerts := alerts w;
     console := console w ++ [args]; requests := requests w |}.

Definition generateContent (r : Request) (w : World) : World :=
  {| storage := storage w; alerts := alerts w;
     console := console w; requests := requests w ++ [r] |}.

Module localStorage.

Definition getItem (k : jsstring) (w : World) : option jsstring :=
  storage w !! k.

Definition setItem (k v : jsstring) (w : World) : World :=
  with_storage (<[k := v]> (storage w)) w.

Definition removeItem (k : jsstring) (w : World) : World :=
  with_storage (delete k (storage w)) w.

End localStorage.

(** ** The diagnosis client (services/gemini.ts) *)

(** The cast [as DiagnosisResult] is erased when the program runs: a
    diagnosis is whatever value the reply's text parses to. *)
Abbreviation DiagnosisResult := JSValue.

(** The properties the response schema lists as required. *)
Definition responseSchema_required : list jsstring :=
  [str "potentialConditions"; str "severity"; str "recommendation";
   str "nextSteps"; str "disclaimer"].

Definition prompt_head : jsstring :=
  str "Analyze the following symptoms and provide a potential diagnosis guidance. "
  ++ [10] ++ str "    SYMPTOMS: ".

Definition prompt_tail : jsstring :=
  [10] ++ str "    " ++ [10]
  ++ str "    IMPORTANT: You are an AI, not a doctor. Your response must be structured, cautious, and include a strong disclaimer. "
  ++ [10]
  ++ str "    Focus on common possibilities but always prioritize safety and professional consultation."
  ++ [10]
  ++ str "    Include a list of " ++ [34] ++ str "nextSteps" ++ [34]
  ++ str " which should be actionable health guidance, wellness tips, or specific medical advice (like "
  ++ [34] ++ str "Consult a specialist" ++ [34] ++ str " or "
  ++ [34] ++ str "Monitor temperature every 4 hours" ++ [34] ++ str ").".

Definition prompt (symptoms : jsstring) : jsstring :=
  prompt_head ++ symptoms ++ prompt_tail.

(** [getDiagnosis] up to its [await]: the request goes out. *)
Definition getDiagnosis_send (symptoms : jsstring) (w : World) : World :=
  generateContent
    {| model := str "gemini-3.1-pro-preview";
       contents := prompt symptoms;
       responseMimeType := str "application/json" |} w.

(** [response.text || "{}"] *)
Definition text_or_braces (text : option jsstring) : jsstring :=
  match text with
  | Some t => if truthy t then t else str "{}"
  | None => str "{}"
  end.

Definition analysis_failed : jsstring :=
  str "Failed to analyze symptoms. Please try again.".

(** [getDiagnosis] from its [await] on. A rejection leaves the function at
    the [await], outside the [try]; a parse error is caught, logged and
    replaced. *)
Definition getDiagnosis_settle (reply : Reply) (w : World)
    : Outcome DiagnosisResult * World :=
  match reply with
  | Rejected reason => (Throws reason, w)
  | Fulfilled text =>
      match JSON.parse (text_or_braces text) with
      | Some v => (Returns v, w)
      | None =>
          (Throws (Error analysis_failed),
           console_error [LogText (str "Failed to parse diagnosis result:");
                          LogExn SyntaxError] w)
      end
  end.

Definition getDiagnosis (symptoms : jsstring) (reply : Reply) (w : World)
    : Outcome DiagnosisResult * World :=
  getDiagnosis_settle reply (getDiagnosis_send symptoms w).

(** ** The types module *)

Record SymptomEntry : Type := {
  entry_id : jsstring;
  entry_timestamp : N;
  entry_symptoms : jsstring;
  entry_result : DiagnosisResult
}.

(** The object literal [{ id, timestamp, symptoms, result }]. *)
Definition entry_object (e : SymptomEntry) : JSValue :=
  JObj [(str "id", JStr (entry_id e));
        (str "timestamp", JNum (digits_of_N (entry_timestamp e)));
        (str "symptoms", JStr (entry_symptoms e));
        (str "result", entry_result e)].

(** ** The [App] component *)

(** The state cells of [App]. [result] is [null] or a diagnosis; [history]
    is typed as an array of entries, but holds whatever was last given to
    [setHistory]. *)
Record AppState : Type := {
  symptoms : jsstring;
  isLoading : bool;
  result : JSValue;
  history : JSValue;
  showDisclaimer : bool;
  hasAcceptedDisclaimer : bool
}.

(** The arguments of the [useState] calls. *)
Definition App_init : AppState :=
  {| symptoms := []; isLoading := false; result := JNull; history := JArr [];
     showDisclaimer := true; hasAcceptedDisclaimer := false |}.

Definition setSymptoms (v : jsstring) (st : AppState) : AppState :=
  {| symptoms := v; isLoading := isLoading st; result := result st;
     history := history st; showDisclaimer := showDisclaimer st;
     hasAcceptedDisclaimer := hasAcceptedDisclaimer st |}.

Definition setIsLoading (v : bool) (st : AppState) : AppState :=
  {| symptoms := symptoms st; isLoading := v; result := result st;
     history := history st; showDisclaimer := showDisclaimer st;
     hasAcceptedDisclaimer := hasAcceptedDisclaimer st |}.

Definition setResult (v : JSValue) (st : AppState) : AppState :=
  {| symptoms := symptoms st; isLoading := isLoading st; result := v;
     history := history st; showDisclaimer := showDisclaimer st;
     hasAcceptedDisclaimer := hasAcceptedDisclaimer st |}.

Definition setHistory (v : JSValue) (st : AppState) : AppState :=
  {| symptoms := symptoms st; isLoading := isLoading st; result := result st;
     history := v; showDisclaimer := showDisclaimer st;
     hasAcceptedDisclaimer := hasAcceptedDisclaimer st |}.

Definition setShowDisclaimer (v : bool) (st : AppState) : AppState :=
  {| symptoms := symptoms st; isLoading := isLoading st; result := result st;
     history := history st; showDisclaimer := v;
     hasAcceptedDisclaimer := hasAcceptedDisclaimer st |}.

Definition setHasAcceptedDisclaimer (v : bool) (st : AppState) : AppState :=
  {| symptoms := symptoms st; isLoading := isLoading st; result := result st;
     history := history st; showDisclaimer := showDisclaimer st;
     hasAcceptedDisclaimer := v |}.

Definition history_key : jsstring := str "aidoc_history".
Definition disclaimer_key : jsstring := str "aidoc_disclaimer_accepted".

(** The effect that runs once, after the first render. Nothing catches what
    [JSON.parse] throws: the effect stops there, before the disclaimer flag
    is read. *)
Definition mount_effect (st : AppState) (w : World) : Outcome AppState :=
  let savedHistory := localStorage.getItem history_key w in
  let loaded :=
    match savedHistory with
    | Some s =>
        if truthy s then
          match JSON.parse s with
          | Some v => Returns (setHistory v st)
          | None => Throws SyntaxError
          end
        else Returns st
    | None => Returns st
    end in
  match loaded with
  | Throws e => Throws e
  | Returns st1 =>
      let accepted := localStorage.getItem disclaimer_key w in
      if decide (accepted = Some (str "true"))
      then Returns (setShowDisclaimer false (setHasAcceptedDisclaimer true st1))
      else Returns st1
  end.

Definition handleAcceptDisclaimer (st : AppState) (w : World) : AppState * World :=
  (setShowDisclaimer false (setHasAcceptedDisclaimer true st),
   localStorage.setItem disclaimer_key (str "true") w).

(** What a running [handleDiagnosis] closed over: the [symptoms] and the
    [history] of the render in which the form was submitted. *)
Record Pending : Type := {
  sent_symptoms : jsstring;
  seen_history : JSValue
}.

(** [handleDiagnosis] up to the [await] inside [getDiagnosis]. [None]: the
    handler returned at its first line. *)
Definition handleDiagnosis_submit (st : AppState) (w : World)
    : option Pending * AppState * World :=
  if negb (truthy (trim (symptoms st))) then (None, st, w)
  else
    (Some {| sent_symptoms := symptoms st; seen_history := history st |},
     setIsLoading true st,
     getDiagnosis_send (symptoms st) w).

Definition analysis_error : jsstring :=
  str "An error occurred during analysis. Please try again.".

(** [handleDiagnosis] from the [await] on: [reply] settles the request,
    [uuid] and [now] are what [crypto.randomUUID()] and [Date.now()] give;
    [st] is the state at that moment. The storage is taken to accept the
    write. A history that cannot be spread throws a TypeError after
    [setResult], inside the [try]. *)
Definition handleDiagnosis_settle (p : Pending) (reply : Reply)
    (uuid : jsstring) (now : N) (st : AppState) (w : World) : AppState * World :=
  let caught (e : Exn) (st' : AppState) (w' : World) :=
    (st', alert analysis_error (console_error [LogExn e] w')) in
  let '(st2, w2) :=
    match getDiagnosis_settle reply w with
    | (Returns data, w1) =>
        let st1 := setResult data st in
        let newEntry :=
          {| entry_id := uuid; entry_timestamp := now;
             entry_symptoms := sent_symptoms p; entry_result := data |} in
        match spread (seen_history p) with
        | Some items =>
            let updatedHistory := JArr (slice 0 10 (entry_object newEntry :: items)) in
            (setHistory updatedHistory st1,
             localStorage.setItem history_key (JSON.stringify updatedHistory) w1)
        | None => caught TypeError st1 w1
        end
    | (Throws e, w1) => caught e st w1
    end in
  (setIsLoading false st2, w2).

(** A submission that nothing interleaves with. *)
Definition handleDiagnosis (reply : Reply) (uuid : jsstring) (now : N)
    (st : AppState) (w : World) : AppState * World :=
  match handleDiagnosis_submit st w with
  | (None, st', w') => (st', w')
  | (Some p, st', w') => handleDiagnosis_settle p reply uuid now st' w'
  end.

Definition clearHistory (st : AppState) (w : World) : AppState * World :=
  (setHistory (JArr []) st, localStorage.removeItem history_key w).

(** The submit button's [disabled] expression. *)
Definition submit_disabled (st : AppState) : bool :=
  isLoading st || negb (truthy (trim (symptoms st))).

(** A click on the submit button: a disabled button submits nothing, an
    enabled one submits the form, which runs [handleDiagnosis]. *)
Definition click_submit (st : AppState) (w : World)
    : option Pending * AppState * World :=
  if submit_disabled st then (None, st, w) else handleDiagnosis_submit st w.

(** ** Sequences of submissions *)

(** One use of the form: the text typed in the textarea, how the request
    settles, and what the identifier generator and the clock return. *)
Record Submission : Type := {
  sub_text : jsstring;
  sub_reply : Reply;
  sub_uuid : jsstring;
  sub_now : N
}.

(** The user types the text (the textarea's [onChange]) and submits; the
    request settles before anything else happens. *)
Definition submit (s : Submission) (stw : AppState * World) : AppState * World :=
  handleDiagnosis (sub_reply s) (sub_uuid s) (sub_now s)
    (setSymptoms (sub_text s) stw.1) stw.2.

Definition submit_all (subs : list Submission) (stw : AppState * World)
    : AppState * World :=
  fold_left (fun acc s => submit s acc) subs stw.

(** A submission succeeds with entry [e]: the text passes the emptiness
    check, [getDiagnosis] returns, and [e] is the entry built from it. *)
Definition successful (s : Submission) (e : SymptomEntry) : Prop :=
  trim (sub_text s) <> []
  /\ (forall w, (getDiagnosis (sub_text s) (sub_reply s) w).1 = Returns (entry_result e))
  /\ entry_id e = sub_uuid s
  /\ entry_timestamp e = sub_now s
  /\ entry_symptoms e = sub_text s.

(** A device on which the program never ran, and nothing observed yet. *)
Definition World_init : World :=
  {| storage := ∅; alerts := []; console := []; requests := [] |}.

(** The stored history does not make the mount effect throw: it is absent,
    empty, or a JSON text. *)
Definition history_readable (w : World) : Prop :=
  match localStorage.getItem history_key w with
  | Some s => s = [] \/ is_Some (JSON.parse s)
  | None => True
  end.

(** ** A session as a sequence of events *)

(** The component between two events: its state, the world, and the runs of
    [handleDiagnosis] that wait at their [await], oldest first. *)
Record Session : Type := {
  app : AppState;
  world : World;
  in_flight : list Pending
}.

(** What can happen: a click on the submit button; the request of the
    [k]-th waiting handler settles; any other handler or effect of the
    component runs (they are functions of the state and the world). *)
Inductive Event : Type :=
| ClickSubmit
| Settle (k : nat) (reply : Reply) (uuid : jsstring) (now : N)
| Other (f : AppState * World -> AppState * World).

Definition session_step (ev : Event) (s : Session) : Session :=
  match ev with
  | ClickSubmit =>
      match click_submit (app s) (world s) with
      | (Some p, st, w) => {| app := st; world := w; in_flight := in_flight s ++ [p] |}
      | (None, st, w) => {| app := st; world := w; in_flight := in_flight s |}
      end
  | Settle k reply uuid now =>
      match in_flight s !! k with
      | Some p =>
          let out := handleDiagnosis_settle p reply uuid now (app s) (world s) in
          {| app := out.1; world := out.2; in_flight := delete k (in_flight s) |}
      | None => s
      end
  | Other f =>
      let out := f (app s, world s) in
      {| app := out.1; world := out.2; in_flight := in_flight s |}
  end.

Definition run_events (evs : list Event) (s : Session) : Session :=
  fold_left (fun acc ev => session_step ev acc) evs s.

(** [setIsLoading] occurs in [handleDiagnosis] only: no other handler
    changes [isLoading]. *)
Definition keeps_isLoading (ev : Event) : Prop :=
  match ev with
  | Other f => forall st w, isLoading (f (st, w)).1 = isLoading st
  | ClickSubmit | Settle _ _ _ _ => True
  end.

(** The other handlers of the component. *)
Definition on_change (text : jsstring) (stw : AppState * World) : AppState * World :=
  (setSymptoms text stw.1, stw.2).

Definition on_clear_history (stw : AppState * World) : AppState * World :=
  clearHistory stw.1 stw.2.

Definition on_accept (stw : AppState * World) : AppState * World :=
  handleAcceptDisclaimer stw.1 stw.2.

Definition on_open_disclaimer (stw : AppState * World) : AppState * World :=
  (setShowDisclaimer true stw.1, stw.2).

(** The backdrop of the gate: [hasAcceptedDisclaimer && setShowDisclaimer(false)]. *)
Definition on_backdrop (stw : AppState * World) : AppState * World :=
  (if hasAcceptedDisclaimer stw.1 then setShowDisclaimer false stw.1 else stw.1, stw.2).

Definition Session_init : Session :=
  {| app := App_init; world := World_init; in_flight := [] |}.

(** While a handler waits, [isLoading] is [true], and it waits alone. *)
Definition one_in_flight (s : Session) : Prop :=
  (length (in_flight s) <= 1)%nat
  /\ (in_flight s <> [] -> isLoading (app s) = true).

(** An array of at most ten values. *)
Definition bounded_history (v : JSValue) : Prop :=
  exists items, v = JArr items /\ (length items <= 10)%nat.

Definition keeps_history_bounded (ev : Event) : Prop :=
  match ev with
  | Other f =>
      forall st w, bounded_history (history st) ->
                   bounded_history (history (f (st, w)).1)
  | ClickSubmit | Settle _ _ _ _ => True
  end.

Definition histories_bounded (s : Session) : Prop :=
  bounded_history (history (app s))
  /\ Forall (fun p => bounded_history (seen_history p)) (in_flight s).

(** ** Sample inputs *)

(** A reply with an unknown severity, no conditions and no disclaimer. *)
Definition odd_reply : jsstring :=
  str "{" ++ [34] ++ str "severity" ++ [34] ++ str ":"
  ++ [34] ++ str "Catastrophic" ++ [34] ++ str "}".

(** Spaces, a tab and a line feed. *)
Definition blank_text : jsstring := [32; 32; 9; 10; 32].

(** A state with a diagnosis on display and one entry in the history. *)
Definition shown_result : JSValue :=
  JObj [(str "severity", JStr (str "Low"))].

Definition busy_state : AppState :=
  {| symptoms := str "sore throat"; isLoading := false;
     result := shown_result;
     history := JArr [entry_object {| entry_id := str "id-0";
                                      entry_timestamp := 1699999999000;
                                      entry_symptoms := str "cough";
                                      entry_result := shown_result |}];
     showDisclaimer := false; hasAcceptedDisclaimer := true |}.

(** Text with white space on both sides. *)
Definition padded_text : jsstring := [32; 32] ++ str "dry cough" ++ [32; 10].

(** The user types, clicks three times, clears the history, changes the
    text and clicks again, all before the first reply. *)
Definition impatient_clicks : list Event :=
  [Other (on_change (str "cough")); ClickSubmit; ClickSubmit; ClickSubmit;
   Other on_clear_history; Other (on_change (str "fever")); ClickSubmit].

(** The state and the world right after a first submission of [cough]. *)
Definition cough_in_flight : option Pending * AppState * World :=
  handleDiagnosis_submit (setSymptoms (str "cough") App_init) World_init.

(** A history cut off in the middle of its first entry. *)
Definition truncated_history : jsstring :=
  str "[{" ++ [34] ++ str "id" ++ [34] ++ str ":".

Definition corrupt_device : World :=
  localStorage.setItem history_key truncated_history World_init.

(** The same device after the user accepted the disclaimer on it. *)
Definition accepted_corrupt_device : World :=
  (handleAcceptDisclaimer App_init corrupt_device).2.

(** A device that holds the flag and a history of one entry. *)
Definition returning_device : World :=
  localStorage.setItem disclaimer_key (str "true")
    (localStorage.setItem history_key (JSON.stringify (history busy_state)) World_init).

(** The i-th of a series of submissions, each answered with a JSON text. *)
Definition nth_submission (i : N) : Submission :=
  {| sub_text := str "symptom " ++ digits_of_N i;
     sub_reply := Fulfilled (Some odd_reply);
     sub_uuid := str "id-" ++ digits_of_N i;
     sub_now := 1700000000000 + i |}.

Definition nth_entry (i : N) : SymptomEntry :=
  {| entry_id := str "id-" ++ digits_of_N i;
     entry_timestamp := 1700000000000 + i;
     entry_symptoms := str "symptom " ++ digits_of_N i;
     entry_result := JObj [(str "severity", JStr (str "Catastrophic"))] |}.

Definition eleven : list N := [1; 2; 3; 4; 5; 6; 7; 8; 9; 10; 11].

(** The diagnosis of the worked example, and the text that carries it. *)
Definition example_diagnosis : JSValue :=
  JObj [(str "potentialConditions",
         JArr [JObj [(str "name", JStr (str "Common cold"));
                     (str "likelihood", JStr (str "High"));
                     (str "description", JStr (str "A viral infection."));
                     (str "commonSymptoms", JArr [JStr (str "cough")])]]);
        (str "severity", JStr (str "Medium"));
        (str "recommendation", JStr (str "Rest and drink fluids."));
        (str "nextSteps", JArr [JStr (str "Monitor temperature every 4 hours")]);
        (str "disclaimer", JStr (str "This is not medical advice."))].

Definition example_symptoms : jsstring :=
  str "persistent dry cough, mild fever, fatigue for 3 days".

Definition example_session : Session :=
  run_events
    [Other (on_change example_symptoms); ClickSubmit;
     Settle 0 (Fulfilled (Some (JSON.stringify example_diagnosis)))
       (str "id-1") 1700000000000]
    Session_init.

(** ** The user interface, handler by handler *)

(** A click on the [i]-th entry of the history list:
    [setResult(item.result)]. An entry without a [result] gives
    [undefined], kept here as [null]: the component only tests the cell for
    truthiness and reads it through optional chaining, which do not tell
    the two apart. Reading a property of a [null] entry throws inside the
    handler, and no cell is set. There is a button per element of an array
    only. *)
Definition on_select (i : nat) (stw : AppState * World) : AppState * World :=
  match history stw.1 with
  | JArr items =>
      match items !! i with
      | Some JNull => stw
      | Some item =>
          (setResult (default JNull (get_prop (str "result") item)) stw.1, stw.2)
      | None => stw
      end
  | _ => stw
  end.

(** The Clear button is on screen when [history.length > 0] and the list
    below it renders, that is for a non-empty array. *)
Definition click_clear (stw : AppState * World) : AppState * World :=
  match history stw.1 with
  | JArr (_ :: _) => clearHistory stw.1 stw.2
  | _ => stw
  end.

(** The gate and its buttons are on screen when [showDisclaimer] holds; the
    Close button also needs [hasAcceptedDisclaimer]. *)
Definition click_accept (stw : AppState * World) : AppState * World :=
  if showDisclaimer stw.1 then handleAcceptDisclaimer stw.1 stw.2 else stw.

Definition click_backdrop (stw : AppState * World) : AppState * World :=
  if showDisclaimer stw.1 then on_backdrop stw else stw.

Definition click_close (stw : AppState * World) : AppState * World :=
  if showDisclaimer stw.1 && hasAcceptedDisclaimer stw.1
  then (setShowDisclaimer false stw.1, stw.2)
  else stw.

(** Everything a user, or the network, can do to a mounted component. *)
Inductive UIEvent : Type :=
| UType (text : jsstring)
| USubmit
| UReply (k : nat) (reply : Reply) (uuid : jsstring) (now : N)
| UClear
| USelect (i : nat)
| UAccept
| UBackdrop
| UClose
| UOpen.

Definition ui (u : UIEvent) : Event :=
  match u with
  | UType text => Other (on_change text)
  | USubmit => ClickSubmit
  | UReply k reply uuid now => Settle k reply uuid now
  | UClear => Other click_clear
  | USelect i => Other (on_select i)
  | UAccept => Other click_accept
  | UBackdrop => Other click_backdrop
  | UClose => Other click_close
  | UOpen => Other on_open_disclaimer
  end.

Definition run_ui (us : list UIEvent) (s : Session) : Session :=
  run_events (List.map ui us) s.

Definition is_accept (u : UIEvent) : bool :=
  match u with UAccept => true | _ => false end.

Definition is_submit (u : UIEvent) : bool :=
  match u with USubmit => true | _ => false end.

(** The request [getDiagnosis] sends for a text. *)
Definition request_for (text : jsstring) : Request :=
  {| model := str "gemini-3.1-pro-preview";
     contents := prompt text;
     responseMimeType := str "application/json" |}.

(** The stored history, when there is one, is a text that [JSON.parse]
    reads as an array of at most ten values: what the next mount effect
    gives to [setHistory]. *)
Definition stored_bounded (w : World) : Prop :=
  match localStorage.getItem history_key w with
  | Some t => exists items, JSON.parse t = Some (JArr items) /\ (length items <= 10)%nat
  | None => True
  end.

(** ** Values that survive serialisation *)

(** The tokens of the text [JSON.stringify] writes for a value. *)
Fixpoint comma_join (parts : list (list JSON.token)) : list JSON.token :=
  match parts with
  | [] => []
  | [p] => p
  | p :: rest => p ++ [JSON.TComma] ++ comma_join rest
  end.

Fixpoint json_tokens (v : JSValue) : list JSON.token :=
  match v with
  | JNull => [JSON.TNull]
  | JBool true => [JSON.TTrue]
  | JBool false => [JSON.TFalse]
  | JNum lexeme => [JSON.TNumber lexeme]
  | JStr s => [JSON.TString s]
  | JArr items =>
      [JSON.TLBracket] ++ comma_join (List.map json_tokens items) ++ [JSON.TRBracket]
  | JObj props =>
      [JSON.TLBrace]
      ++ comma_join (List.map (fun p => match p with
                                        | (k, x) => JSON.TString k :: JSON.TColon :: json_tokens x
                                        end) props)
      ++ [JSON.TRBrace]
  end.

(** Keys in the order an object enumerates them: array indices first, in
    ascending order, then the other keys. [lo] is the last index seen, or
    [None] once a key that is no index was seen. *)
Fixpoint keys_in_order (lo : option N) (keys : list jsstring) : Prop :=
  match keys with
  | [] => True
  | k :: rest =>
      match JSON.array_index k, lo with
      | Some j, Some l => l <= j /\ keys_in_order (Some j) rest
      | Some _, None => False
      | None, _ => keys_in_order None rest
      end
  end.

Definition ordered_keys (keys : list jsstring) : Prop :=
  NoDup keys /\ keys_in_order (Some 0) keys.

(** The values [JSON.parse] can return: numbers are number literals, and
    objects have distinct keys in enumeration order. *)
Fixpoint canonical (v : JSValue) : Prop :=
  match v with
  | JNull | JBool _ | JStr _ => True
  | JNum lexeme => JSON.is_number lexeme = true
  | JArr items => fold_right (fun x acc => canonical x /\ acc) True items
  | JObj props =>
      ordered_keys (List.map fst props)
      /\ fold_right (fun p acc => canonical p.2 /\ acc) True props
  end.

(** What can follow a value in a JSON text: nothing that a number could
    go on with. *)
Definition ends_number (rest : jsstring) : Prop :=
  match rest with
  | [] => True
  | c :: _ => JSON.is_num_char c = false
  end.

(** Where the automaton goes from [e] and [stack] once a whole value [v]
    has been read, and what it then does with the tokens [ts]. *)
Definition after_value (v : JSValue) (stack : list JSON.frame) (ts : list JSON.token)
    : option JSValue :=
  match JSON.put v stack with
  | Some (e', stack') => JSON.run e' stack' ts
  | None => None
  end.

Definition reads_value (v : JSValue) : Prop :=
  forall e stack ts,
    e = JSON.EValue \/ e = JSON.EArrFirst ->
    JSON.run e stack (json_tokens v ++ ts) = after_value v stack ts.

(** What the lexer and the automaton keep true while they read. *)
Definition token_ok (t : JSON.token) : Prop :=
  match t with
  | JSON.TNumber lexeme => JSON.is_number lexeme = true
  | _ => True
  end.

Definition frame_ok (f : JSON.frame) : Prop :=
  match f with
  | JSON.FArr acc => Forall canonical acc
  | JSON.FObj props _ => canonical (JObj props)
  end.

Definition state_ok (e : JSON.expect) (stack : list JSON.frame) : Prop :=
  Forall frame_ok stack
  /\ match e with
     | JSON.EEnd v => canonical v
     | _ => True
     end.

(** ** Sessions, one after the other *)

(** A page load on the device of [s]: the state cells start anew, the mount
    effect runs, and the handlers that waited in the old page are gone. *)
Definition reload (s : Session) : Outcome Session :=
  match mount_effect App_init (world s) with
  | Returns st => Returns {| app := st; world := world s; in_flight := [] |}
  | Throws e => Throws e
  end.

(** The events of one session after the other, with a page load before
    each. *)
Fixpoint run_sessions (sessions : list (list UIEvent)) (s : Session) : Outcome Session :=
  match sessions with
  | [] => Returns s
  | us :: later =>
      match reload s with
      | Returns s' => run_sessions later (run_ui us s')
      | Throws e => Throws e
      end
  end.

(** The stored history is the serialisation of the one in the state, and
    there is none stored only when that one is empty. *)
Definition history_in_sync (st : AppState) (w : World) : Prop :=
  match localStorage.getItem history_key w with
  | Some t => t = JSON.stringify (history st)
  | None => history st = JArr []
  end.

Definition canonical_array (v : JSValue) : Prop :=
  exists items, v = JArr items /\ Forall canonical items.

Definition consistent (s : Session) : Prop :=
  canonical_array (history (app s))
  /\ Forall (fun p => canonical_array (seen_history p)) (in_flight s)
  /\ history_in_sync (app s) (world s).

(** ** Numbers that are written back as they were read *)

(** [JSON.stringify] writes a number anew, from its value. For an integer
    below 2^53 in plain digits, such as [Date.now()], that is the text it
    was read from; the values below hold no other number. *)
Fixpoint plain_numbers (v : JSValue) : Prop :=
  match v with
  | JNull | JBool _ | JStr _ => True
  | JNum lexeme => exists n, n < 9007199254740992 /\ lexeme = digits_of_N n
  | JArr items => fold_right (fun x acc => plain_numbers x /\ acc) True items
  | JObj props => fold_right (fun p acc => plain_numbers p.2 /\ acc) True props
  end.

(** A reply whose diagnosis, and a clock reading whose value, is of that
    kind. *)
Definition plain_event (u : UIEvent) : Prop :=
  match u with
  | UReply _ reply _ now =>
      now < 9007199254740992
      /\ forall w data, (getDiagnosis_settle reply w).1 = Returns data -> plain_numbers data
  | _ => True
  end.

Definition plain_session (s : Session) : Prop :=
  plain_numbers (history (app s))
  /\ Forall (fun p => plain_numbers (seen_history p)) (in_flight s).

(** ** What the component function evaluates when it renders *)

(** The exceptions below are those of the component function itself, while
    it builds its elements; what React does with the elements afterwards is
    not modelled. Every one of them is a TypeError. *)

Definition bind {A B : Type} (x : Outcome A) (f : A -> Outcome B) : Outcome B :=
  match x with
  | Returns a => f a
  | Throws e => Throws e
  end.

Fixpoint for_each {A : Type} (f : A -> Outcome unit) (l : list A) : Outcome unit :=
  match l with
  | [] => Returns tt
  | x :: rest => bind (f x) (fun _ => for_each f rest)
  end.

(** [v.k] for the property names the component reads, none of which a
    prototype provides: the own property of an object, [undefined] ([None])
    on any other value, and a TypeError on [null] and [undefined]. *)
Definition read (k : jsstring) (v : option JSValue) : Outcome (option JSValue) :=
  match v with
  | None | Some JNull => Throws TypeError
  | Some (JObj props) => Returns (lookup_prop k props)
  | Some (JBool _) | Some (JNum _) | Some (JStr _) | Some (JArr _) => Returns None
  end.

(** [v.map(f)], up to the elements [f] is called on: only an array has a
    callable [map] (a parsed object holds no function). *)
Definition elements_to_map (v : option JSValue) : Outcome (list JSValue) :=
  match v with
  | Some (JArr items) => Returns items
  | _ => Throws TypeError
  end.

(** Conversion to a primitive, as string concatenation and [new Date] do
    it: it throws for an object with an own [toString] (which cannot be a
    function), and for an array that holds such a value, through [join]. *)
Fixpoint to_primitive_throws (v : JSValue) : bool :=
  match v with
  | JObj props =>
      match lookup_prop (str "toString") props with
      | Some _ => true
      | None => false
      end
  | JArr items => existsb to_primitive_throws items
  | JNull | JBool _ | JNum _ | JStr _ => false
  end.

Definition to_primitive (v : option JSValue) : Outcome unit :=
  match v with
  | Some x => if to_primitive_throws x then Throws TypeError else Returns tt
  | None => Returns tt
  end.

(** The callback of [history.map]: [key={item.id}], [item.symptoms],
    [new Date(item.timestamp)] and [item.result.severity]. *)
Definition render_history_item (item : JSValue) : Outcome unit :=
  bind (read (str "id") (Some item)) (fun id =>
  bind (read (str "symptoms") (Some item)) (fun _ =>
  bind (read (str "timestamp") (Some item)) (fun ts =>
  bind (to_primitive ts) (fun _ =>
  bind (read (str "result") (Some item)) (fun r =>
  bind (read (str "severity") r) (fun _ =>
  to_primitive id)))))).

(** The history list, for a history that is an array. *)
Definition render_history_list (items : list JSValue) : Outcome unit :=
  for_each render_history_item items.

(** The callback of [potentialConditions.map]: the reads of [name],
    [likelihood] and [description], and [condition.commonSymptoms.map]. *)
Definition render_condition (c : JSValue) : Outcome unit :=
  bind (read (str "name") (Some c)) (fun _ =>
  bind (read (str "likelihood") (Some c)) (fun _ =>
  bind (read (str "description") (Some c)) (fun _ =>
  bind (read (str "commonSymptoms") (Some c)) (fun cs =>
  bind (elements_to_map cs) (fun _ => Returns tt))))).

(** The result panel, rendered for a truthy [result]; its reads go through
    [result?.], which gives [undefined] for [null]. *)
Definition render_result_panel (result : JSValue) : Outcome unit :=
  match result with
  | JNull => Returns tt
  | _ =>
      bind (read (str "severity") (Some result)) (fun _ =>
      bind (read (str "recommendation") (Some result)) (fun _ =>
      bind (read (str "potentialConditions") (Some result)) (fun pc =>
      bind (elements_to_map pc) (fun conditions =>
      bind (for_each render_condition conditions) (fun _ =>
      bind (read (str "nextSteps") (Some result)) (fun ns =>
      bind (elements_to_map ns) (fun _ =>
      bind (read (str "disclaimer") (Some result)) (fun _ => Returns tt))))))))
  end.

(** Which panel the right column shows:
    [!result && !isLoading ? placeholder : isLoading ? spinner : result].
    Whether a number is falsy depends on its rounding to a double, which is
    outside the model: [None]. *)
Inductive Panel : Type := Placeholder | Spinner | ResultPanel.

Definition truthy_value (v : JSValue) : option bool :=
  match v with
  | JNull => Some false
  | JBool b => Some b
  | JStr s => Some (truthy s)
  | JNum _ => None
  | JArr _ | JObj _ => Some true
  end.

Definition panel (st : AppState) : option Panel :=
  if isLoading st then Some Spinner
  else
    match truthy_value (result st) with
    | Some true => Some ResultPanel
    | Some false => Some Placeholder
    | None => None
    end.

(** The shape the result panel needs: arrays under [potentialConditions]
    and [nextSteps], and each condition an object with an array under
    [commonSymptoms]. *)
Definition condition_shaped (c : JSValue) : bool :=
  match get_prop (str "commonSymptoms") c with
  | Some (JArr _) => true
  | _ => false
  end.

Definition panel_shaped (v : JSValue) : bool :=
  match get_prop (str "potentialConditions") v, get_prop (str "nextSteps") v with
  | Some (JArr conditions), Some (JArr _) => forallb condition_shaped conditions
  | _, _ => false
  end.

(** An entry whose diagnosis is not [null]. *)
Definition has_result (e : SymptomEntry) : bool :=
  match entry_result e with
  | JNull => false
  | _ => true
  end.

(** ** More sample inputs *)

(** A returning user with a text typed in. *)
Definition returning_session : Session :=
  {| app := busy_state; world := returning_device; in_flight := [] |}.

(** Everything a first-time visitor can do except accepting. *)
Definition undecided_visit : list UIEvent :=
  [UBackdrop; UClose; UType (str "cough"); USubmit; UOpen; USelect 0; UClear].

(** A submission that is answered while the user has typed on, clicked
    again and cleared the history. *)
Definition busy_visit : list UIEvent :=
  [UAccept; UType (str "cough"); USubmit; USubmit; UType (str "fever");
   UReply 0 (Fulfilled (Some odd_reply)) (str "id-1") 1700000000000;
   USubmit; UClear].

(** The worked example as a visit. *)
Definition example_visit : list UIEvent :=
  [UType example_symptoms; USubmit;
   UReply 0 (Fulfilled (Some (JSON.stringify example_diagnosis)))
     (str "id-1") 1700000000000].

(** A submission answered with the JSON text [null]. *)
Definition null_submission : Submission :=
  {| sub_text := str "cough"; sub_reply := Fulfilled (Some (str "null"));
     sub_uuid := str "id-12"; sub_now := 1700000000012 |}.

Definition null_entry : SymptomEntry :=
  {| entry_id := str "id-12"; entry_timestamp := 1700000000012;
     entry_symptoms := str "cough"; entry_result := JNull |}.

(** * Properties *)

(** ** [trim] and the emptiness check *)

Lemma truthy_false (s : jsstring) : truthy s = false <-> s = [].
Proof. destruct s; simpl; split; congruence. Qed.

Lemma truthy_true (s : jsstring) : truthy s = true <-> s <> [].
Proof. destruct s; simpl; split; congruence. Qed.

(** ** [JSON.parse] on some texts *)

Example parse_nested :
  JSON.parse (str " [1, -2.5e+3, true, false, null, [], {}, [[0]]] ")
  = Some (JArr [JNum (str "1"); JNum (str "-2.5e+3"); JBool true; JBool false;
                JNull; JArr []; JObj []; JArr [JArr [JNum (str "0")]]]).
Proof. reflexivity. Qed.

Example parse_rejects :
  Forall (fun t => JSON.parse (str t) = None)
    ["[1,]"; "[1 2]"; "01"; "1."; "-"; ".5"; "+1"; "tru"; "nulll"; "[";
     "{,}"; "{1:2}"; "'a'"; "1 2"; "[]]"; "undefined"; "NaN"]%string.
Proof. repeat constructor. Qed.

Example parse_stringify_example :
  JSON.parse (JSON.stringify example_diagnosis) = Some example_diagnosis.
Proof. reflexivity. Qed.

(** ** [getDiagnosis] *)

Lemma parse_empty : JSON.parse [] = None.
Proof. reflexivity. Qed.

Lemma parse_braces : JSON.parse (str "{}") = Some (JObj []).
Proof. reflexivity. Qed.

Lemma text_or_braces_nonempty (t : jsstring) :
  t <> [] -> text_or_braces (Some t) = t.
Proof. destruct t; [congruence | reflexivity]. Qed.

Lemma parseable_nonempty (t : jsstring) (v : JSValue) :
  JSON.parse t = Some v -> t <> [].
Proof. intros H ->. rewrite parse_empty in H. discriminate. Qed.

(** What [getDiagnosis] returns or throws does not depend on the world, and
    a successful call leaves no trace but the request. *)
Lemma getDiagnosis_settle_returns (reply : Reply) (w : World) (v : JSValue) :
  (getDiagnosis_settle reply w).1 = Returns v ->
  getDiagnosis_settle reply w = (Returns v, w).
Proof.
  unfold getDiagnosis_settle.
  destruct reply as [reason | text]; simpl; [discriminate |].
  destruct (JSON.parse (text_or_braces text)); simpl; congruence.
Qed.

Lemma getDiagnosis_settle_world_irrelevant (reply : Reply) (w w' : World) :
  (getDiagnosis_settle reply w).1 = (getDiagnosis_settle reply w').1.
Proof.
  unfold getDiagnosis_settle.
  destruct reply as [reason | text]; simpl; [reflexivity |].
  destruct (JSON.parse (text_or_braces text)); reflexivity.
Qed.

Lemma getDiagnosis_settle_keeps (reply : Reply) (w : World) :
  storage (getDiagnosis_settle reply w).2 = storage w
  /\ alerts (getDiagnosis_settle reply w).2 = alerts w
  /\ requests (getDiagnosis_settle reply w).2 = requests w.
Proof.
  unfold getDiagnosis_settle.
  destruct reply as [reason | text]; simpl; [auto |].
  destruct (JSON.parse (text_or_braces text)); simpl; auto.
Qed.

(** C6. A reply whose text is a JSON text makes [getDiagnosis] return the
    parsed value itself, whatever its shape: nothing looks for the fields of
    a diagnosis or at the values of [severity] and [likelihood]. *)
Theorem getDiagnosis_returns_parsed_value
    (symptoms t : jsstring) (v : JSValue) (w : World) :
  JSON.parse t = Some v ->
  getDiagnosis symptoms (Fulfilled (Some t)) w
  = (Returns v, getDiagnosis_send symptoms w).
Proof.
  intros Hv. unfold getDiagnosis, getDiagnosis_settle.
  rewrite (text_or_braces_nonempty t (parseable_nonempty t v Hv)).
  now rewrite Hv.
Qed.

Lemma getDiagnosis_returns_parsed_value_witness :
  JSON.parse odd_reply = Some (JObj [(str "severity", JStr (str "Catastrophic"))])
  /\ getDiagnosis (str "headache") (Fulfilled (Some odd_reply)) World_init
     = (Returns (JObj [(str "severity", JStr (str "Catastrophic"))]),
        getDiagnosis_send (str "headache") World_init).
Proof.
  split; [reflexivity |].
  apply (getDiagnosis_returns_parsed_value (str "headache") odd_reply).
  reflexivity.
Defined.

(** C10. When the request succeeds with no text, or with the empty text,
    [getDiagnosis] parses the literal [{}] instead and returns the empty
    object: it throws nothing, logs nothing, and the result has none of the
    properties the schema requires. *)
Theorem getDiagnosis_empty_text_returns_empty_object
    (symptoms : jsstring) (w : World) :
  text_or_braces None = str "{}"
  /\ text_or_braces (Some []) = str "{}"
  /\ getDiagnosis symptoms (Fulfilled None) w
     = (Returns (JObj []), getDiagnosis_send symptoms w)
  /\ getDiagnosis symptoms (Fulfilled (Some [])) w
     = (Returns (JObj []), getDiagnosis_send symptoms w)
  /\ Forall (fun k => get_prop k (JObj []) = None) responseSchema_required.
Proof.
  repeat split.
  unfold responseSchema_required. repeat constructor.
Qed.

(** C5, as the code has it. One call of [getDiagnosis] sends one request and
    never a second one. It throws exactly when the request is rejected, or
    resolves with a non-empty text that is not a JSON text. A rejection
    leaves the function as it is; a parse error is logged and replaced by
    the error with the fixed message. *)
Theorem getDiagnosis_throws_iff (symptoms : jsstring) (reply : Reply) (w : World) :
  let out := getDiagnosis symptoms reply w in
  requests out.2
  = requests w ++ [{| model := str "gemini-3.1-pro-preview";
                      contents := prompt symptoms;
                      responseMimeType := str "application/json" |}]
  /\ ((exists e, out.1 = Throws e)
      <-> (exists reason, reply = Rejected reason)
          \/ (exists t, reply = Fulfilled (Some t) /\ t <> [] /\ JSON.parse t = None))
  /\ (forall reason, reply = Rejected reason ->
        out = (Throws reason, getDiagnosis_send symptoms w))
  /\ (forall t, reply = Fulfilled (Some t) -> t <> [] -> JSON.parse t = None ->
        out = (Throws (Error analysis_failed),
               console_error [LogText (str "Failed to parse diagnosis result:");
                              LogExn SyntaxError]
                 (getDiagnosis_send symptoms w))).
Proof.
  cbv zeta. unfold getDiagnosis. repeat split.
  - destruct (getDiagnosis_settle_keeps reply (getDiagnosis_send symptoms w))
      as (_ & _ & ->). reflexivity.
  - intros [e He]. destruct reply as [reason | [t |]].
    + left. eauto.
    + right. exists t. split; [reflexivity |].
      destruct t as [| c t]; [discriminate He |].
      split; [discriminate |].
      unfold getDiagnosis_settle in He. simpl text_or_braces in He.
      destruct (JSON.parse (c :: t)); [discriminate He | reflexivity].
    + discriminate He.
  - intros [[reason ->] | (t & -> & Ht & Hp)].
    + exists reason. reflexivity.
    + exists (Error analysis_failed). unfold getDiagnosis_settle.
      rewrite (text_or_braces_nonempty t Ht), Hp. reflexivity.
  - intros reason ->. reflexivity.
  - intros t -> Ht Hp. unfold getDiagnosis_settle.
    rewrite (text_or_braces_nonempty t Ht), Hp. reflexivity.
Qed.

(** C5 fails as stated: the empty text is not a JSON text, and a reply with
    the empty text does not make [getDiagnosis] throw. *)
Lemma getDiagnosis_empty_text_does_not_throw :
  JSON.parse [] = None
  /\ (getDiagnosis (str "headache") (Fulfilled (Some [])) World_init).1
     = Returns (JObj []).
Proof. split; reflexivity. Qed.

(** ** [handleDiagnosis] *)

Lemma handleDiagnosis_submit_blank (st : AppState) (w : World) :
  trim (symptoms st) = [] -> handleDiagnosis_submit st w = (None, st, w).
Proof. intros H. unfold handleDiagnosis_submit. now rewrite H. Qed.

Lemma handleDiagnosis_submit_accepted (st : AppState) (w : World) :
  trim (symptoms st) <> [] ->
  handleDiagnosis_submit st w
  = (Some {| sent_symptoms := symptoms st; seen_history := history st |},
     setIsLoading true st,
     getDiagnosis_send (symptoms st) w).
Proof.
  intros H. unfold handleDiagnosis_submit.
  apply truthy_true in H. now rewrite H.
Qed.

(** C3. When the text is empty, or only white space, so that trimming it
    leaves nothing, [handleDiagnosis] returns at its first line: the state
    (with [isLoading], [result] and [history]) and the world (storage,
    alerts, log, requests sent) are what they were, however the request
    would have settled. The button behaves the same. *)
Theorem blank_submit_is_noop (st : AppState) (w : World) :
  trim (symptoms st) = [] ->
  handleDiagnosis_submit st w = (None, st, w)
  /\ click_submit st w = (None, st, w)
  /\ forall reply uuid now, handleDiagnosis reply uuid now st w = (st, w).
Proof.
  intros H. split; [| split].
  - now apply handleDiagnosis_submit_blank.
  - unfold click_submit. destruct (submit_disabled st); [reflexivity |].
    now apply handleDiagnosis_submit_blank.
  - intros reply uuid now. unfold handleDiagnosis.
    now rewrite handleDiagnosis_submit_blank.
Qed.

Lemma blank_submit_is_noop_witness :
  trim blank_text = []
  /\ handleDiagnosis (Fulfilled (Some (str "{}"))) (str "id-1") 1700000000000
       (setSymptoms blank_text App_init) World_init
     = (setSymptoms blank_text App_init, World_init).
Proof.
  split; [reflexivity |].
  apply (blank_submit_is_noop (setSymptoms blank_text App_init) World_init).
  reflexivity.
Defined.

(** When [getDiagnosis] throws, the resumed handler changes one state cell
    and shows one alert. *)
Lemma handleDiagnosis_settle_failure
    (p : Pending) (reply : Reply) (uuid : jsstring) (now : N)
    (st : AppState) (w : World) (e : Exn) :
  (getDiagnosis_settle reply w).1 = Throws e ->
  handleDiagnosis_settle p reply uuid now st w
  = (setIsLoading false st,
     alert analysis_error
       (console_error [LogExn e] (getDiagnosis_settle reply w).2)).
Proof.
  intros H. unfold handleDiagnosis_settle.
  destruct (getDiagnosis_settle reply w) as [r w1]. simpl in H. now subst r.
Qed.

Lemma setIsLoading_idle (st : AppState) :
  isLoading st = false -> setIsLoading false (setIsLoading true st) = st.
Proof. destruct st as [s l r h d a]. simpl. now intros ->. Qed.

(** C4. When [getDiagnosis] throws (the request is rejected, or its text
    does not parse), the submission ends in the state it began in: the
    result on display and the history are kept, the storage is not written,
    [isLoading] is [false] again, and the user gets one alert. *)
Theorem failed_submit_restores_state
    (reply : Reply) (uuid : jsstring) (now : N)
    (st : AppState) (w : World) (e : Exn) :
  trim (symptoms st) <> [] ->
  (getDiagnosis (symptoms st) reply w).1 = Throws e ->
  let out := handleDiagnosis reply uuid now st w in
  out.1 = setIsLoading false st
  /\ (isLoading st = false -> out.1 = st)
  /\ result out.1 = result st
  /\ history out.1 = history st
  /\ isLoading out.1 = false
  /\ storage out.2 = storage w
  /\ alerts out.2 = alerts w ++ [analysis_error].
Proof.
  intros Hne He. cbv zeta. unfold handleDiagnosis.
  rewrite (handleDiagnosis_submit_accepted st w Hne).
  unfold getDiagnosis in He.
  rewrite (handleDiagnosis_settle_failure _ reply uuid now _ _ e He).
  destruct (getDiagnosis_settle_keeps reply (getDiagnosis_send (symptoms st) w))
    as (Hs & Ha & _).
  cbn [fst snd]. repeat split.
  - intros Hidle. destruct st as [s l r h d a]. simpl in *. now subst l.
  - simpl. exact Hs.
  - simpl. now rewrite Ha.
Qed.

Lemma failed_submit_restores_state_witness :
  (handleDiagnosis (Fulfilled (Some (str "{ truncated"))) (str "id-1")
     1700000000000 busy_state World_init).1 = busy_state.
Proof.
  apply (failed_submit_restores_state (Fulfilled (Some (str "{ truncated")))
           (str "id-1") 1700000000000 busy_state World_init
           (Error analysis_failed));
    [vm_compute; discriminate | reflexivity | reflexivity].
Defined.

Lemma prompt_injective (s s' : jsstring) : prompt s = prompt s' -> s = s'.
Proof.
  unfold prompt. intros H.
  apply app_inv_head in H. now apply app_inv_tail in H.
Qed.

Lemma slice_front {A : Type} (x : A) (l : list A) :
  slice 0 10 (x :: l) = x :: firstn 9 l.
Proof. reflexivity. Qed.

(** What a successful settlement does, for a history that can be spread. *)
Lemma handleDiagnosis_settle_success
    (p : Pending) (reply : Reply) (uuid : jsstring) (now : N)
    (st : AppState) (w : World) (data : JSValue) (items : list JSValue) :
  (getDiagnosis_settle reply w).1 = Returns data ->
  spread (seen_history p) = Some items ->
  let newEntry := {| entry_id := uuid; entry_timestamp := now;
                     entry_symptoms := sent_symptoms p; entry_result := data |} in
  let updated := JArr (entry_object newEntry :: firstn 9 items) in
  handleDiagnosis_settle p reply uuid now st w
  = (setIsLoading false (setHistory updated (setResult data st)),
     localStorage.setItem history_key (JSON.stringify updated) w).
Proof.
  intros Hd Hs. cbv zeta. unfold handleDiagnosis_settle.
  rewrite (getDiagnosis_settle_returns reply w data Hd), Hs.
  reflexivity.
Qed.

(** C7. Trimming serves the emptiness check only. When the check passes,
    the text as typed, untrimmed, is what the handler keeps, what the
    request's prompt embeds, and what the new entry's [symptoms] holds when
    the diagnosis arrives. *)
Theorem untrimmed_text_is_sent_and_stored (st : AppState) (w : World) :
  trim (symptoms st) <> [] ->
  exists p st1 w1,
    handleDiagnosis_submit st w = (Some p, st1, w1)
    /\ sent_symptoms p = symptoms st
    /\ (exists r, requests w1 = requests w ++ [r]
                  /\ contents r = prompt_head ++ symptoms st ++ prompt_tail)
    /\ forall reply uuid now st' w' data items,
         (getDiagnosis_settle reply w').1 = Returns data ->
         spread (seen_history p) = Some items ->
         exists e,
           history (handleDiagnosis_settle p reply uuid now st' w').1
           = JArr (entry_object e :: firstn 9 items)
           /\ entry_symptoms e = symptoms st
           /\ get_prop (str "symptoms") (entry_object e) = Some (JStr (symptoms st)).
Proof.
  intros Hne.
  exists {| sent_symptoms := symptoms st; seen_history := history st |},
         (setIsLoading true st), (getDiagnosis_send (symptoms st) w).
  split; [now apply handleDiagnosis_submit_accepted |].
  split; [reflexivity |].
  split; [eexists; split; reflexivity |].
  intros reply uuid now st' w' data items Hd Hs.
  eexists. rewrite (handleDiagnosis_settle_success _ reply uuid now st' w' data items Hd Hs).
  simpl. split; [reflexivity |]. split; reflexivity.
Qed.

Lemma untrimmed_text_is_sent_and_stored_witness :
  trim padded_text = str "dry cough"
  /\ exists p st1 w1,
       handleDiagnosis_submit (setSymptoms padded_text App_init) World_init
       = (Some p, st1, w1)
       /\ sent_symptoms p = padded_text
       /\ (exists r, requests w1 = requests World_init ++ [r]
                     /\ contents r = prompt_head ++ padded_text ++ prompt_tail)
       /\ forall reply uuid now st' w' data items,
            (getDiagnosis_settle reply w').1 = Returns data ->
            spread (seen_history p) = Some items ->
            exists e,
              history (handleDiagnosis_settle p reply uuid now st' w').1
              = JArr (entry_object e :: firstn 9 items)
              /\ entry_symptoms e = padded_text
              /\ get_prop (str "symptoms") (entry_object e) = Some (JStr padded_text).
Proof.
  split; [reflexivity |].
  apply (untrimmed_text_is_sent_and_stored (setSymptoms padded_text App_init) World_init).
  vm_compute. discriminate.
Defined.

(** ** The submit button *)

Lemma click_submit_while_loading (st : AppState) (w : World) :
  isLoading st = true -> click_submit st w = (None, st, w).
Proof. intros H. unfold click_submit, submit_disabled. now rewrite H. Qed.

Lemma click_submit_enabled (st : AppState) (w : World) :
  submit_disabled st = false ->
  isLoading st = false
  /\ click_submit st w
     = (Some {| sent_symptoms := symptoms st; seen_history := history st |},
        setIsLoading true st, getDiagnosis_send (symptoms st) w).
Proof.
  intros H. unfold click_submit. rewrite H.
  unfold submit_disabled in H. apply orb_false_elim in H as [Hl Ht].
  split; [exact Hl |].
  apply handleDiagnosis_submit_accepted, truthy_true.
  now apply negb_false_iff in Ht.
Qed.

Lemma session_step_one_in_flight (ev : Event) (s : Session) :
  keeps_isLoading ev -> one_in_flight s -> one_in_flight (session_step ev s).
Proof.
  intros Hev [Hlen Hload]. unfold one_in_flight.
  destruct ev as [| k reply uuid now | f]; simpl.
  - destruct (submit_disabled (app s)) eqn:Hd.
    + unfold click_submit. rewrite Hd. split; assumption.
    + destruct (click_submit_enabled (app s) (world s) Hd) as [Hidle ->].
      destruct (in_flight s) as [| p l].
      * split; simpl; auto.
      * rewrite Hload in Hidle by discriminate. discriminate.
  - destruct (in_flight s) as [| p [| p' l]] eqn:Hf; simpl in Hlen; try lia.
    + destruct k; simpl; rewrite Hf; split; simpl; (lia || congruence).
    + destruct k as [| [| k]]; simpl; rewrite ?Hf;
        split; simpl; (lia || congruence || exact Hload).
  - split; simpl; [exact Hlen |]. intros Hne.
    simpl in Hev. rewrite Hev. now apply Hload.
Qed.

Lemma run_events_one_in_flight (evs : list Event) :
  Forall keeps_isLoading evs ->
  forall s, one_in_flight s -> one_in_flight (run_events evs s).
Proof.
  induction 1 as [| ev evs Hev _ IH]; intros s Hs; [exact Hs |].
  unfold run_events. cbn [fold_left]. apply IH.
  now apply session_step_one_in_flight.
Qed.

(** C9, as the code has it. Whatever the user does, at most one submission
    waits for its reply: while one waits [isLoading] is [true], the submit
    button is disabled, and a click on it changes nothing (nothing is
    queued, no request is sent). The guard is the button's;
    [handleDiagnosis] does not read [isLoading]. *)
Theorem at_most_one_submit_in_flight (evs : list Event) (s : Session) :
  in_flight s = [] ->
  Forall keeps_isLoading evs ->
  let s' := run_events evs s in
  (length (in_flight s') <= 1)%nat
  /\ (in_flight s' <> [] ->
      isLoading (app s') = true
      /\ submit_disabled (app s') = true
      /\ click_submit (app s') (world s') = (None, app s', world s')
      /\ session_step ClickSubmit s' = s').
Proof.
  intros Hnone Hevs. cbv zeta.
  destruct (run_events_one_in_flight evs Hevs s) as [Hlen Hload].
  { split; rewrite Hnone; simpl; [lia | congruence]. }
  split; [exact Hlen |]. intros Hne. specialize (Hload Hne).
  split; [exact Hload |].
  split; [unfold submit_disabled; now rewrite Hload |].
  split; [now apply click_submit_while_loading |].
  simpl. rewrite click_submit_while_loading by exact Hload.
  now destruct (run_events evs s).
Qed.

Lemma at_most_one_submit_in_flight_witness :
  (length (in_flight (run_events impatient_clicks Session_init)) <= 1)%nat
  /\ length (requests (world (run_events impatient_clicks Session_init))) = 1%nat.
Proof.
  split; [| reflexivity].
  apply (at_most_one_submit_in_flight impatient_clicks Session_init);
    [reflexivity | repeat constructor].
Defined.

(** C9 fails for the handler: run while a first request is pending, with
    [isLoading] true, [handleDiagnosis] passes its only check and sends a
    second request. *)
Lemma handleDiagnosis_not_guarded_by_isLoading :
  isLoading cough_in_flight.1.2 = true
  /\ length (requests cough_in_flight.2) = 1%nat
  /\ (handleDiagnosis_submit cough_in_flight.1.2 cough_in_flight.2).1.1
     = Some {| sent_symptoms := str "cough"; seen_history := JArr [] |}
  /\ length (requests (handleDiagnosis_submit cough_in_flight.1.2 cough_in_flight.2).2)
     = 2%nat.
Proof. repeat split. Qed.

(** ** The mount effect *)

Lemma mount_effect_no_history (st : AppState) (w : World) :
  localStorage.getItem history_key w = None \/ localStorage.getItem history_key w = Some [] ->
  mount_effect st w
  = Returns (if decide (localStorage.getItem disclaimer_key w = Some (str "true"))
             then setShowDisclaimer false (setHasAcceptedDisclaimer true st)
             else st).
Proof.
  intros [H | H]; unfold mount_effect; rewrite H; simpl; now case_decide.
Qed.

Lemma mount_effect_parsed_history (st : AppState) (w : World) (s : jsstring) (v : JSValue) :
  localStorage.getItem history_key w = Some s ->
  JSON.parse s = Some v ->
  mount_effect st w
  = Returns (if decide (localStorage.getItem disclaimer_key w = Some (str "true"))
             then setShowDisclaimer false
                    (setHasAcceptedDisclaimer true (setHistory v st))
             else setHistory v st).
Proof.
  intros H Hv. unfold mount_effect. rewrite H.
  pose proof (parseable_nonempty s v Hv) as Ht.
  apply truthy_true in Ht. rewrite Ht, Hv.
  now case_decide.
Qed.

(** Stored text that is not a JSON text: the effect throws, whatever the
    disclaimer flag is. *)
Lemma mount_effect_malformed_history (st : AppState) (w : World) (s : jsstring) :
  localStorage.getItem history_key w = Some s ->
  s <> [] ->
  JSON.parse s = None ->
  mount_effect st w = Throws SyntaxError.
Proof.
  intros H Hne Hp. unfold mount_effect. rewrite H.
  apply truthy_true in Hne. now rewrite Hne, Hp.
Qed.

Lemma mount_effect_returns_iff (st : AppState) (w : World) :
  (exists st', mount_effect st w = Returns st') <-> history_readable w.
Proof.
  unfold history_readable.
  destruct (localStorage.getItem history_key w) as [s |] eqn:H.
  - destruct s as [| c s].
    + rewrite mount_effect_no_history by auto. split; eauto.
    + destruct (JSON.parse (c :: s)) as [v |] eqn:Hp.
      * rewrite (mount_effect_parsed_history st w _ v H Hp). split; eauto.
      * rewrite (mount_effect_malformed_history st w _ H) by (auto; discriminate).
        split.
        -- intros [st' Hst']. discriminate.
        -- intros [Hs | [v Hv]]; discriminate.
  - rewrite mount_effect_no_history by auto. split; eauto.
Qed.

Lemma mount_effect_gate (st st' : AppState) (w : World) :
  mount_effect st w = Returns st' ->
  if decide (localStorage.getItem disclaimer_key w = Some (str "true"))
  then showDisclaimer st' = false /\ hasAcceptedDisclaimer st' = true
  else showDisclaimer st' = showDisclaimer st
       /\ hasAcceptedDisclaimer st' = hasAcceptedDisclaimer st.
Proof.
  unfold mount_effect.
  destruct (localStorage.getItem history_key w) as [s |];
    [destruct (truthy s); [destruct (JSON.parse s) |] |];
    try discriminate;
    case_decide; intros [= <-]; simpl; auto.
Qed.

(** C2, on the code. With no stored history the mount effect leaves the
    history empty; with a stored text that is not a JSON text, here a
    truncated one, [JSON.parse] throws inside the effect and nothing
    catches it. *)
Theorem mount_effect_throws_on_truncated_history :
  (exists st, mount_effect App_init World_init = Returns st /\ history st = JArr [])
  /\ JSON.parse truncated_history = None
  /\ mount_effect App_init corrupt_device = Throws SyntaxError.
Proof.
  split; [| split].
  - eexists. split; reflexivity.
  - reflexivity.
  - vm_compute. reflexivity.
Qed.

(** ** The disclaimer gate *)

Lemma accept_sets_flag (st : AppState) (w : World) :
  localStorage.getItem disclaimer_key (handleAcceptDisclaimer st w).2 = Some (str "true").
Proof. unfold handleAcceptDisclaimer, localStorage.getItem, localStorage.setItem. simpl. apply lookup_insert_eq. Qed.

Lemma accept_keeps_other_keys (st : AppState) (w : World) (k : jsstring) :
  k <> disclaimer_key ->
  localStorage.getItem k (handleAcceptDisclaimer st w).2 = localStorage.getItem k w.
Proof.
  intros H. unfold handleAcceptDisclaimer, localStorage.getItem, localStorage.setItem.
  simpl. now apply lookup_insert_ne.
Qed.

Lemma history_key_not_disclaimer_key : history_key <> disclaimer_key.
Proof. discriminate. Qed.

Lemma accept_keeps_history_readable (st : AppState) (w : World) :
  history_readable w -> history_readable (handleAcceptDisclaimer st w).2.
Proof.
  unfold history_readable.
  now rewrite (accept_keeps_other_keys st w _ history_key_not_disclaimer_key).
Qed.

(** The lifecycle of the gate on devices whose stored history lets the
    mount effect run to its end. With no stored flag, the first session
    starts with the gate showing and not accepted, and so it is after the
    mount effect. Accepting, in any state, hides the gate and records the
    flag as the text [true]. A later session that finds this flag ends its
    mount effect with the gate hidden and accepted; the session that
    follows an acceptance is one. *)
Theorem disclaimer_gate_lifecycle (w wa w' : World) :
  localStorage.getItem disclaimer_key w = None ->
  history_readable w ->
  history_readable wa ->
  localStorage.getItem disclaimer_key w' = Some (str "true") ->
  history_readable w' ->
  (showDisclaimer App_init = true /\ hasAcceptedDisclaimer App_init = false)
  /\ (exists st1,
        mount_effect App_init w = Returns st1
        /\ showDisclaimer st1 = true /\ hasAcceptedDisclaimer st1 = false)
  /\ (forall st,
        let out := handleAcceptDisclaimer st wa in
        showDisclaimer out.1 = false
        /\ hasAcceptedDisclaimer out.1 = true
        /\ localStorage.getItem disclaimer_key out.2 = Some (str "true")
        /\ exists st2,
             mount_effect App_init out.2 = Returns st2
             /\ showDisclaimer st2 = false /\ hasAcceptedDisclaimer st2 = true)
  /\ (exists st3,
        mount_effect App_init w' = Returns st3
        /\ showDisclaimer st3 = false /\ hasAcceptedDisclaimer st3 = true).
Proof.
  intros Hnone Hr Hra Hflag Hr'.
  assert (Hhidden : forall x,
            localStorage.getItem disclaimer_key x = Some (str "true") ->
            history_readable x ->
            exists s, mount_effect App_init x = Returns s
                      /\ showDisclaimer s = false /\ hasAcceptedDisclaimer s = true).
  { intros x Hx Hrx.
    apply (mount_effect_returns_iff App_init) in Hrx as [s Hs].
    exists s. split; [exact Hs |].
    apply mount_effect_gate in Hs. now rewrite decide_True in Hs. }
  split; [split; reflexivity |].
  split; [| split; [| now apply Hhidden]].
  - apply (mount_effect_returns_iff App_init) in Hr as [st1 Hst1].
    exists st1. split; [exact Hst1 |].
    apply mount_effect_gate in Hst1.
    now rewrite decide_False in Hst1 by (rewrite Hnone; discriminate).
  - intros st. cbv zeta. split; [reflexivity |]. split; [reflexivity |].
    split; [apply accept_sets_flag |].
    apply Hhidden; [apply accept_sets_flag |].
    now apply accept_keeps_history_readable.
Qed.

Lemma disclaimer_gate_lifecycle_witness :
  (exists st1,
     mount_effect App_init World_init = Returns st1
     /\ showDisclaimer st1 = true /\ hasAcceptedDisclaimer st1 = false)
  /\ (exists st2,
        mount_effect App_init (handleAcceptDisclaimer App_init World_init).2 = Returns st2
        /\ showDisclaimer st2 = false /\ hasAcceptedDisclaimer st2 = true)
  /\ (exists st3,
        mount_effect App_init returning_device = Returns st3
        /\ showDisclaimer st3 = false /\ hasAcceptedDisclaimer st3 = true).
Proof.
  assert (H0 : localStorage.getItem disclaimer_key World_init = None) by reflexivity.
  assert (H1 : history_readable World_init) by exact I.
  assert (H2 : localStorage.getItem disclaimer_key returning_device = Some (str "true"))
    by (vm_compute; reflexivity).
  assert (H3 : history_readable returning_device)
    by (vm_compute; right; eexists; reflexivity).
  destruct (disclaimer_gate_lifecycle World_init World_init returning_device
              H0 H1 H1 H2 H3) as (_ & Hfirst & Hacc & Hlater).
  split; [exact Hfirst |]. split; [| exact Hlater].
  destruct (Hacc App_init) as (_ & _ & _ & Hnext). exact Hnext.
Defined.

(** C8, on the code. The first steps of the lifecycle hold on every device:
    the cells start with the gate showing and not accepted, and accepting
    hides the gate and stores the flag as the text [true]. The last step
    fails where the mount effect fails (see C2): on a device that holds the
    flag beside a history that is not a JSON text, be it stored there or
    just written by an acceptance, [JSON.parse] throws before the flag is
    read, and no session starts with the gate hidden and accepted. *)
Theorem mount_effect_throws_before_reading_flag :
  (showDisclaimer App_init = true /\ hasAcceptedDisclaimer App_init = false)
  /\ (let out := handleAcceptDisclaimer App_init corrupt_device in
      showDisclaimer out.1 = false
      /\ hasAcceptedDisclaimer out.1 = true
      /\ out.2 = accepted_corrupt_device)
  /\ localStorage.getItem disclaimer_key accepted_corrupt_device = Some (str "true")
  /\ mount_effect App_init accepted_corrupt_device = Throws SyntaxError
  /\ ~ (exists st,
          mount_effect App_init accepted_corrupt_device = Returns st
          /\ showDisclaimer st = false /\ hasAcceptedDisclaimer st = true).
Proof.
  assert (Hthrow : mount_effect App_init accepted_corrupt_device = Throws SyntaxError).
  { apply (mount_effect_malformed_history _ _ truncated_history).
    - unfold accepted_corrupt_device.
      rewrite (accept_keeps_other_keys _ _ _ history_key_not_disclaimer_key).
      unfold corrupt_device, localStorage.getItem, localStorage.setItem.
      cbn [storage with_storage]. apply lookup_insert_eq.
    - discriminate.
    - reflexivity. }
  split; [split; reflexivity |].
  split; [cbv zeta; repeat split |].
  split; [apply accept_sets_flag |].
  split; [exact Hthrow |].
  intros (st & Hst & _). rewrite Hthrow in Hst. discriminate.
Qed.

(** ** The bounded history *)

Lemma firstn_app_firstn {A : Type} (n : nat) (l1 l2 : list A) :
  firstn n (l1 ++ firstn n l2) = firstn n (l1 ++ l2).
Proof.
  rewrite !firstn_app, firstn_firstn.
  f_equal. f_equal. lia.
Qed.

(** One successful submission: the new entry goes in front of the history
    the state held, the whole is cut to ten and written to the storage. *)
Lemma submit_success (s : Submission) (e : SymptomEntry)
    (st : AppState) (w : World) (items : list JSValue) :
  history st = JArr items ->
  successful s e ->
  let updated := JArr (firstn 10 (entry_object e :: items)) in
  submit s (st, w)
  = (setIsLoading false
       (setHistory updated
          (setResult (entry_result e)
             (setIsLoading true (setSymptoms (sub_text s) st)))),
     localStorage.setItem history_key (JSON.stringify updated)
       (getDiagnosis_send (sub_text s) w)).
Proof.
  intros Hh (Hne & Hd & Hid & Hts & Hsy). cbv zeta.
  unfold submit, handleDiagnosis. cbn [fst snd].
  rewrite handleDiagnosis_submit_accepted by exact Hne.
  specialize (Hd w). unfold getDiagnosis in Hd.
  cbn [symptoms history setSymptoms].
  rewrite (handleDiagnosis_settle_success _ _ _ _ _ _ (entry_result e) items Hd)
    by (cbn [seen_history]; now rewrite Hh).
  cbn [sent_symptoms].
  destruct e as [i t sy r]. simpl in *. subst. reflexivity.
Qed.

Lemma submit_all_history (subs : list Submission) (entries : list SymptomEntry) :
  Forall2 successful subs entries ->
  forall (st : AppState) (w : World) (items : list JSValue),
    history st = JArr items ->
    (length items <= 10)%nat ->
    history (submit_all subs (st, w)).1
    = JArr (firstn 10 (rev (List.map entry_object entries) ++ items)).
Proof.
  induction 1 as [| s e subs entries Hs _ IH]; intros st w items Hh Hlen.
  - simpl. rewrite Hh. f_equal. symmetry. now apply firstn_all2.
  - unfold submit_all. cbn [fold_left].
    rewrite (submit_success s e st w items Hh Hs).
    fold (submit_all subs).
    erewrite IH; [| reflexivity | rewrite length_firstn; lia].
    rewrite firstn_app_firstn. cbn [List.map rev].
    now rewrite <- app_assoc.
Qed.

Lemma submit_all_snoc (subs : list Submission) (s : Submission) (stw : AppState * World) :
  submit_all (subs ++ [s]) stw = submit s (submit_all subs stw).
Proof. unfold submit_all. now rewrite fold_left_app. Qed.

(** After the last of one or more successful submissions, the storage holds
    the serialised history of the state, and the newest entry is first. *)
Lemma submit_all_last (subs : list Submission) (entries : list SymptomEntry)
    (s : Submission) (e : SymptomEntry) (st : AppState) (w : World)
    (items : list JSValue) :
  Forall2 successful subs entries ->
  successful s e ->
  history st = JArr items ->
  (length items <= 10)%nat ->
  let out := submit_all (subs ++ [s]) (st, w) in
  localStorage.getItem history_key out.2 = Some (JSON.stringify (history out.1))
  /\ exists rest, history out.1 = JArr (entry_object e :: rest).
Proof.
  intros Hsubs Hs Hh Hlen. cbv zeta. rewrite submit_all_snoc.
  pose proof (submit_all_history subs entries Hsubs st w items Hh Hlen) as Hmid.
  destruct (submit_all subs (st, w)) as [st1 w1]. cbn [fst] in Hmid.
  rewrite (submit_success s e st1 w1 _ Hmid Hs). cbn [fst snd].
  split.
  - unfold localStorage.getItem, localStorage.setItem. simpl. apply lookup_insert_eq.
  - simpl. eauto.
Qed.

(** C1. From a state whose history has at most ten entries (the initial
    one has none), after any sequence of successful submissions the history
    in the state has at most ten entries: the new entries, newest first,
    then the old ones, cut to ten. After at least one submission the storage
    holds the serialisation of exactly this history and the entry of the
    last submission is at index 0; after ten or more, the history is the
    entries of the last ten submissions, newest first. *)
Theorem history_keeps_ten_newest
    (subs : list Submission) (entries : list SymptomEntry)
    (st : AppState) (w : World) (items : list JSValue) :
  history st = JArr items ->
  (length items <= 10)%nat ->
  Forall2 successful subs entries ->
  let out := submit_all subs (st, w) in
  exists kept,
    history out.1 = JArr kept
    /\ (length kept <= 10)%nat
    /\ kept = firstn 10 (rev (List.map entry_object entries) ++ items)
    /\ (subs <> [] ->
        localStorage.getItem history_key out.2 = Some (JSON.stringify (JArr kept)))
    /\ (forall earlier e, entries = earlier ++ [e] ->
        kept = entry_object e
               :: firstn 9 (rev (List.map entry_object earlier) ++ items))
    /\ ((10 <= length subs)%nat ->
        kept = rev (skipn (length entries - 10) (List.map entry_object entries))).
Proof.
  intros Hh Hlen Hall. cbv zeta.
  pose proof (submit_all_history subs entries Hall st w items Hh Hlen) as Hkept.
  eexists. split; [exact Hkept |].
  split; [rewrite length_firstn; lia |].
  split; [reflexivity |].
  split; [| split].
  - intros Hne.
    destruct (exists_last Hne) as (subs' & s & ->).
    apply Forall2_app_inv_l in Hall as (entries' & last & Hall' & Hlast & ->).
    inversion Hlast as [| s0 e l0 l1 Hs Hnil]; subst.
    inversion Hnil; subst.
    destruct (submit_all_last subs' entries' s e st w items Hall' Hs Hh Hlen)
      as [Hstored _].
    rewrite Hstored. now rewrite Hkept.
  - intros earlier e ->.
    rewrite map_app, rev_app_distr. reflexivity.
  - intros Hten.
    apply Forall2_length in Hall.
    rewrite firstn_app, firstn_rev, !length_rev, !length_map.
    replace (10 - length entries)%nat with 0%nat by lia.
    now rewrite firstn_O, app_nil_r.
Qed.

Lemma eleven_successful :
  Forall2 successful (List.map nth_submission eleven) (List.map nth_entry eleven).
Proof.
  repeat (constructor;
          [repeat split; try (intros w; reflexivity); vm_compute; discriminate |]).
  constructor.
Qed.

Lemma history_keeps_ten_newest_witness :
  let out := submit_all (List.map nth_submission eleven) (App_init, World_init) in
  history out.1 = JArr (List.map (fun i => entry_object (nth_entry i))
                          [11; 10; 9; 8; 7; 6; 5; 4; 3; 2])
  /\ localStorage.getItem history_key out.2 = Some (JSON.stringify (history out.1)).
Proof.
  cbv zeta.
  destruct (history_keeps_ten_newest (List.map nth_submission eleven)
              (List.map nth_entry eleven) App_init World_init [])
    as (kept & Hk & _ & Heq & Hst & _);
    [reflexivity | simpl; lia | exact eleven_successful |].
  rewrite Hk. split.
  - rewrite Heq. reflexivity.
  - apply Hst. discriminate.
Defined.

(** ** The worked example *)

(** The text is typed and submitted, and the reply carries a diagnosis: the
    state shows this very value, is not loading, and the history starts
    with an entry that holds the text and the value; the storage holds the
    serialised history, and one request went out. *)
Example example_session_ready :
  result (app example_session) = example_diagnosis
  /\ isLoading (app example_session) = false
  /\ in_flight example_session = []
  /\ history (app example_session)
     = JArr [entry_object {| entry_id := str "id-1";
                             entry_timestamp := 1700000000000;
                             entry_symptoms := example_symptoms;
                             entry_result := example_diagnosis |}]
  /\ localStorage.getItem history_key (world example_session)
     = Some (JSON.stringify (history (app example_session)))
  /\ length (requests (world example_session)) = 1%nat
  /\ alerts (world example_session) = [].
Proof. vm_compute. repeat split. Qed.

(** ** The bound under any interleaving *)

Lemma handleDiagnosis_settle_bounded
    (p : Pending) (reply : Reply) (uuid : jsstring) (now : N)
    (st : AppState) (w : World) :
  bounded_history (history st) ->
  bounded_history (seen_history p) ->
  bounded_history (history (handleDiagnosis_settle p reply uuid now st w).1).
Proof.
  intros Hst (items & Hp & Hlen).
  destruct (getDiagnosis_settle reply w).1 as [data | e] eqn:Hr.
  - rewrite (handleDiagnosis_settle_success p reply uuid now st w data items Hr)
      by now rewrite Hp.
    simpl. eexists. split; [reflexivity |].
    simpl. rewrite length_firstn. lia.
  - now rewrite (handleDiagnosis_settle_failure p reply uuid now st w e Hr).
Qed.

Lemma session_step_histories_bounded (ev : Event) (s : Session) :
  keeps_history_bounded ev -> histories_bounded s ->
  histories_bounded (session_step ev s).
Proof.
  intros Hev [Hst Hfl]. unfold histories_bounded.
  destruct ev as [| k reply uuid now | f]; simpl.
  - unfold click_submit, handleDiagnosis_submit.
    destruct (submit_disabled (app s)); [now split |].
    destruct (negb (truthy (trim (symptoms (app s))))); [now split |].
    simpl. split; [exact Hst |].
    apply Forall_app. split; [exact Hfl |]. now constructor.
  - destruct (in_flight s !! k) as [p |] eqn:Hk; [| now split].
    simpl. split.
    + apply handleDiagnosis_settle_bounded; [exact Hst |].
      exact (Forall_lookup_1 _ _ _ _ Hfl Hk).
    + now apply Forall_delete.
  - split; [| exact Hfl]. now apply Hev.
Qed.

(** In a session that starts with at most ten entries, the history has at
    most ten entries after any events: submissions that succeed or fail,
    overlap or not, and any other handler that keeps the bound. *)
Lemma run_events_histories_bounded (evs : list Event) :
  Forall keeps_history_bounded evs ->
  forall s, histories_bounded s -> histories_bounded (run_events evs s).
Proof.
  induction 1 as [| ev evs Hev _ IH]; intros s Hs; [exact Hs |].
  unfold run_events. cbn [fold_left]. apply IH.
  now apply session_step_histories_bounded.
Qed.

(** Each handler of the component other than [handleDiagnosis] leaves
    [isLoading] alone and keeps the bound. *)
Lemma handlers_keep_isLoading (text : jsstring) :
  Forall keeps_isLoading
    [Other (on_change text); Other on_clear_history; Other on_accept;
     Other on_open_disclaimer; Other on_backdrop].
Proof.
  repeat constructor; intros st w; simpl; try reflexivity.
  now destruct (hasAcceptedDisclaimer st).
Qed.

Lemma handlers_keep_history_bounded (text : jsstring) :
  Forall keeps_history_bounded
    [Other (on_change text); Other on_clear_history; Other on_accept;
     Other on_open_disclaimer; Other on_backdrop].
Proof.
  repeat constructor; intros st w H; simpl; try exact H.
  - exists []. split; [reflexivity | simpl; lia].
  - now destruct (hasAcceptedDisclaimer st).
Qed.

(** ** Clearing the history *)

Lemma clearHistory_removes_key (st : AppState) (w : World) :
  localStorage.getItem history_key (clearHistory st w).2 = None.
Proof.
  unfold clearHistory, localStorage.getItem, localStorage.removeItem. simpl.
  apply lookup_delete_eq.
Qed.

Lemma clearHistory_keeps_other_keys (st : AppState) (w : World) (k : jsstring) :
  k <> history_key ->
  localStorage.getItem k (clearHistory st w).2 = localStorage.getItem k w.
Proof.
  intros H. unfold clearHistory, localStorage.getItem, localStorage.removeItem.
  simpl. apply lookup_delete_ne. congruence.
Qed.

(** X1. [clearHistory] empties the history of the state and removes the
    stored one, whatever it was, a text that is not JSON included: the next
    session's mount effect returns, with an empty history. The result on
    display and the stored disclaimer flag are kept. *)
Theorem clearHistory_then_mount (st : AppState) (w : World) :
  let out := clearHistory st w in
  history out.1 = JArr []
  /\ result out.1 = result st
  /\ localStorage.getItem history_key out.2 = None
  /\ localStorage.getItem disclaimer_key out.2 = localStorage.getItem disclaimer_key w
  /\ exists st', mount_effect App_init out.2 = Returns st' /\ history st' = JArr [].
Proof.
  cbv zeta. split; [reflexivity |]. split; [reflexivity |].
  split; [apply clearHistory_removes_key |].
  split.
  { apply clearHistory_keeps_other_keys. intros H. symmetry in H.
    now apply history_key_not_disclaimer_key in H. }
  rewrite mount_effect_no_history by (left; apply clearHistory_removes_key).
  eexists. split; [reflexivity |]. now case_decide.
Qed.

(** ** What the resumed handler leaves alone *)

Lemma handleDiagnosis_settle_frame
    (p : Pending) (reply : Reply) (uuid : jsstring) (now : N)
    (st : AppState) (w : World) :
  let out := handleDiagnosis_settle p reply uuid now st w in
  symptoms out.1 = symptoms st
  /\ isLoading out.1 = false
  /\ showDisclaimer out.1 = showDisclaimer st
  /\ hasAcceptedDisclaimer out.1 = hasAcceptedDisclaimer st
  /\ requests out.2 = requests w
  /\ localStorage.getItem disclaimer_key out.2 = localStorage.getItem disclaimer_key w.
Proof.
  cbv zeta. unfold handleDiagnosis_settle.
  destruct (getDiagnosis_settle_keeps reply w) as (Hs & _ & Hr).
  destruct (getDiagnosis_settle reply w) as [[data | e] w1]; simpl in Hs, Hr.
  - destruct (spread (seen_history p)) as [items |]; simpl;
      unfold localStorage.getItem; simpl; rewrite ?Hs, ?Hr.
    + repeat split.
      apply lookup_insert_ne, history_key_not_disclaimer_key.
    + repeat split.
  - simpl. unfold localStorage.getItem. simpl. rewrite Hs, Hr. repeat split.
Qed.

Lemma run_ui_cons (u : UIEvent) (us : list UIEvent) (s : Session) :
  run_ui (u :: us) s = run_ui us (session_step (ui u) s).
Proof. reflexivity. Qed.

Lemma run_ui_app (us us' : list UIEvent) (s : Session) :
  run_ui (us ++ us') s = run_ui us' (run_ui us s).
Proof. unfold run_ui, run_events. now rewrite map_app, fold_left_app. Qed.

(** ** The disclaimer gate under any events *)

Lemma ui_step_gate (u : UIEvent) (s : Session) :
  let s' := session_step (ui u) s in
  (is_accept u = false ->
   hasAcceptedDisclaimer (app s) = false ->
   hasAcceptedDisclaimer (app s') = false
   /\ (showDisclaimer (app s) = true -> showDisclaimer (app s') = true))
  /\ (hasAcceptedDisclaimer (app s) = true ->
      localStorage.getItem disclaimer_key (world s) = Some (str "true") ->
      hasAcceptedDisclaimer (app s') = true
      /\ localStorage.getItem disclaimer_key (world s') = Some (str "true")).
Proof.
  cbv zeta.
  destruct u as [text | | k reply uuid now | | i | | | |]; cbn [ui session_step].
  - simpl. auto.
  - unfold click_submit, handleDiagnosis_submit.
    destruct (submit_disabled (app s)); [simpl; auto |].
    destruct (negb (truthy (trim (symptoms (app s))))); simpl; auto.
  - destruct (in_flight s !! k) as [p |]; [| auto]. cbn [app world].
    destruct (handleDiagnosis_settle_frame p reply uuid now (app s) (world s))
      as (_ & _ & Hsh & Hacc & _ & Hflag).
    rewrite Hsh, Hacc, Hflag. auto.
  - assert (Hk : localStorage.getItem disclaimer_key (clearHistory (app s) (world s)).2
                 = localStorage.getItem disclaimer_key (world s)).
    { apply clearHistory_keeps_other_keys. intros H. symmetry in H.
      now apply history_key_not_disclaimer_key in H. }
    unfold click_clear. cbn [fst snd app world].
    destruct (history (app s)) as [| | | | [| x l] |]; auto.
    rewrite Hk. auto.
  - unfold on_select. cbn [fst snd app world].
    destruct (history (app s)) as [| | | | items |]; auto.
    destruct (items !! i) as [[] |]; auto.
  - split; [discriminate |]. intros Ha Hf. unfold click_accept.
    cbn [fst snd app world].
    destruct (showDisclaimer (app s)); [| auto].
    split; [reflexivity | apply accept_sets_flag].
  - unfold click_backdrop, on_backdrop. cbn [fst snd app world].
    destruct (showDisclaimer (app s)) eqn:Hs, (hasAcceptedDisclaimer (app s)) eqn:Ha;
      cbn [fst snd]; rewrite ?Hs, ?Ha; auto; split; auto; discriminate.
  - unfold click_close. cbn [fst snd app world].
    destruct (showDisclaimer (app s)) eqn:Hs, (hasAcceptedDisclaimer (app s)) eqn:Ha;
      cbn [fst snd andb]; rewrite ?Hs, ?Ha; auto; split; auto; discriminate.
  - simpl. auto.
Qed.

(** X3. Until the user accepts, the gate cannot be closed: from a state
    where it shows and is not accepted, after any events other than a click
    on the accept button it still shows and is still not accepted. *)
Theorem gate_stays_until_accepted (us : list UIEvent) (s : Session) :
  forallb (fun u => negb (is_accept u)) us = true ->
  showDisclaimer (app s) = true ->
  hasAcceptedDisclaimer (app s) = false ->
  showDisclaimer (app (run_ui us s)) = true
  /\ hasAcceptedDisclaimer (app (run_ui us s)) = false.
Proof.
  revert s. induction us as [| u us IH]; intros s Hus Hshow Hacc; [auto |].
  simpl in Hus. apply andb_true_iff in Hus as [Hu Hus].
  apply negb_true_iff in Hu.
  rewrite run_ui_cons.
  destruct (ui_step_gate u s) as [Hstep _].
  destruct (Hstep Hu Hacc) as [Hacc' Hshow'].
  apply IH; auto.
Qed.

(** X4. Acceptance is for good: once the accept button of the showing gate
    is clicked, after any further events [hasAcceptedDisclaimer] is [true]
    and the storage holds the flag [true]. *)
Theorem acceptance_is_permanent (us : list UIEvent) (s : Session) :
  showDisclaimer (app s) = true ->
  hasAcceptedDisclaimer (app (run_ui (UAccept :: us) s)) = true
  /\ localStorage.getItem disclaimer_key (world (run_ui (UAccept :: us) s))
     = Some (str "true").
Proof.
  intros Hshow. rewrite run_ui_cons.
  assert (Hstart : hasAcceptedDisclaimer (app (session_step (ui UAccept) s)) = true
                   /\ localStorage.getItem disclaimer_key
                        (world (session_step (ui UAccept) s)) = Some (str "true")).
  { cbn [ui session_step]. unfold click_accept. cbn [fst snd app world].
    rewrite Hshow. split; [reflexivity | apply accept_sets_flag]. }
  generalize dependent (session_step (ui UAccept) s). clear s Hshow.
  induction us as [| u us IH]; intros s [Ha Hf]; [auto |].
  rewrite run_ui_cons. apply IH.
  destruct (ui_step_gate u s) as [_ Hstep]. auto.
Qed.

(** ** Loading and pending requests *)

Lemma ui_keeps_isLoading (u : UIEvent) : keeps_isLoading (ui u).
Proof.
  destruct u as [text | | k reply uuid now | | i | | | |]; simpl; auto; intros st w.
  - unfold click_clear. cbn [fst snd].
    now destruct (history st) as [| | | | [| x l] |].
  - unfold on_select. cbn [fst snd].
    destruct (history st) as [| | | | items |]; auto.
    now destruct (items !! i) as [[] |].
  - unfold click_accept. cbn [fst snd]. now destruct (showDisclaimer st).
  - unfold click_backdrop, on_backdrop. cbn [fst snd].
    now destruct (showDisclaimer st), (hasAcceptedDisclaimer st).
  - unfold click_close. cbn [fst snd].
    now destruct (showDisclaimer st), (hasAcceptedDisclaimer st).
Qed.

Lemma session_step_loading_exact (ev : Event) (s : Session) :
  keeps_isLoading ev ->
  (in_flight s = [] /\ isLoading (app s) = false)
  \/ (exists p, in_flight s = [p] /\ isLoading (app s) = true) ->
  (in_flight (session_step ev s) = [] /\ isLoading (app (session_step ev s)) = false)
  \/ (exists p, in_flight (session_step ev s) = [p]
                /\ isLoading (app (session_step ev s)) = true).
Proof.
  intros Hev Hs. destruct ev as [| k reply uuid now | f]; cbn [session_step].
  - destruct (submit_disabled (app s)) eqn:Hd.
    + unfold click_submit. rewrite Hd. exact Hs.
    + destruct (click_submit_enabled (app s) (world s) Hd) as [Hidle ->].
      destruct Hs as [[Hf _] | (p & _ & Hl)]; [| congruence].
      right. rewrite Hf. simpl. eauto.
  - destruct Hs as [[Hf Hl] | (p & Hf & Hl)]; rewrite Hf.
    + destruct k; simpl; rewrite ?Hf; auto.
    + destruct k as [| k]; simpl.
      * left. split; [reflexivity |].
        apply (handleDiagnosis_settle_frame p reply uuid now (app s) (world s)).
      * right. exists p. rewrite Hf. auto.
  - simpl in Hev. cbn [app in_flight]. rewrite Hev. exact Hs.
Qed.

(** X5. The loading state tells exactly whether a request is pending: from
    an idle state with nothing pending, after any events either nothing is
    pending and [isLoading] is [false], or exactly one submission is pending
    and [isLoading] is [true]. *)
Theorem loading_iff_request_pending (us : list UIEvent) (s : Session) :
  in_flight s = [] ->
  isLoading (app s) = false ->
  (in_flight (run_ui us s) = [] /\ isLoading (app (run_ui us s)) = false)
  \/ (exists p, in_flight (run_ui us s) = [p]
                /\ isLoading (app (run_ui us s)) = true).
Proof.
  intros Hf Hl.
  assert (Hs : (in_flight s = [] /\ isLoading (app s) = false)
               \/ (exists p, in_flight s = [p] /\ isLoading (app s) = true)) by auto.
  clear Hf Hl. revert s Hs.
  induction us as [| u us IH]; intros s Hs; [exact Hs |].
  rewrite run_ui_cons. apply IH.
  apply session_step_loading_exact; [apply ui_keeps_isLoading | exact Hs].
Qed.

(** ** The requests that go out *)

Lemma ui_step_requests (u : UIEvent) (s : Session) :
  requests (world (session_step (ui u) s)) = requests (world s)
  \/ (is_submit u = true
      /\ trim (symptoms (app s)) <> []
      /\ requests (world (session_step (ui u) s))
         = requests (world s) ++ [request_for (symptoms (app s))]).
Proof.
  destruct u as [text | | k reply uuid now | | i | | | |]; cbn [ui session_step].
  - left. reflexivity.
  - destruct (submit_disabled (app s)) eqn:Hd.
    + left. unfold click_submit. now rewrite Hd.
    + right. split; [reflexivity |].
      destruct (click_submit_enabled (app s) (world s) Hd) as [_ ->].
      split; [| reflexivity].
      unfold submit_disabled in Hd. apply orb_false_elim in Hd as [_ Hd].
      apply negb_false_iff in Hd. now apply truthy_true.
  - left. destruct (in_flight s !! k) as [p |]; [| reflexivity]. cbn [world].
    apply (handleDiagnosis_settle_frame p reply uuid now (app s) (world s)).
  - left. unfold click_clear. cbn [fst snd world].
    now destruct (history (app s)) as [| | | | [| x l] |].
  - left. unfold on_select. cbn [fst snd world].
    destruct (history (app s)) as [| | | | items |]; auto.
    now destruct (items !! i) as [[] |].
  - left. unfold click_accept. cbn [fst snd world].
    now destruct (showDisclaimer (app s)).
  - left. unfold click_backdrop, on_backdrop. cbn [fst snd world].
    now destruct (showDisclaimer (app s)), (hasAcceptedDisclaimer (app s)).
  - left. unfold click_close. cbn [fst snd world].
    now destruct (showDisclaimer (app s)), (hasAcceptedDisclaimer (app s)).
  - left. reflexivity.
Qed.

(** X6. Requests leave on clicks of the submit button only, one per click
    at most, and never for a blank text: whatever the events, each request
    sent is the request for a text that does not trim to nothing. *)
Theorem requests_only_for_submitted_text (us : list UIEvent) (s : Session) :
  exists sent,
    requests (world (run_ui us s)) = requests (world s) ++ sent
    /\ (length sent <= length (List.filter is_submit us))%nat
    /\ Forall (fun r => exists text, trim text <> [] /\ r = request_for text) sent.
Proof.
  revert s. induction us as [| u us IH]; intros s.
  - exists []. simpl. rewrite app_nil_r. auto.
  - rewrite run_ui_cons.
    destruct (IH (session_step (ui u) s)) as (sent & Hreq & Hlen & Hall).
    destruct (ui_step_requests u s) as [Hsame | (Hsub & Hne & Hadd)].
    + exists sent. rewrite Hreq, Hsame. split; [reflexivity |].
      split; [| exact Hall]. simpl. destruct (is_submit u); simpl; lia.
    + exists (request_for (symptoms (app s)) :: sent).
      rewrite Hreq, Hadd, <- app_assoc. split; [reflexivity |].
      split; [simpl; rewrite Hsub; simpl; lia |].
      constructor; [eauto | exact Hall].
Qed.

(** ** The bound under the events of the interface *)

Lemma ui_keeps_history_bounded (u : UIEvent) : keeps_history_bounded (ui u).
Proof.
  destruct u as [text | | k reply uuid now | | i | | | |]; simpl; auto;
    intros st w H.
  - unfold click_clear. cbn [fst snd].
    destruct (history st) as [| | | | [| x l] |] eqn:Hh;
      cbn [fst]; rewrite ?Hh; auto.
    exists []. split; [reflexivity | simpl; lia].
  - unfold on_select. cbn [fst snd].
    destruct (history st) as [| | | | items |] eqn:Hh;
      cbn [fst]; rewrite ?Hh; auto.
    destruct (items !! i) as [[] |]; cbn [fst setResult history]; rewrite ?Hh; auto.
  - unfold click_accept. cbn [fst snd]. now destruct (showDisclaimer st).
  - unfold click_backdrop, on_backdrop. cbn [fst snd].
    now destruct (showDisclaimer st), (hasAcceptedDisclaimer st).
  - unfold click_close. cbn [fst snd].
    now destruct (showDisclaimer st), (hasAcceptedDisclaimer st).
Qed.

(** ** Selecting an entry *)

Lemma on_select_entry
    (i : nat) (e : SymptomEntry) (objs : list JSValue)
    (st : AppState) (w : World) :
  history st = JArr objs ->
  objs !! i = Some (entry_object e) ->
  on_select i (st, w) = (setResult (entry_result e) st, w).
Proof.
  intros Hh He. unfold on_select. cbn [fst snd]. now rewrite Hh, He.
Qed.

(** X8. What a submission stores is what a later click on its entry shows:
    after successful submissions from an empty history, a click on the
    [i]-th entry of the list ([i] below ten) sets [result] to the diagnosis
    received by the [i]-th most recent submission, and changes no other
    cell and nothing in the world. *)
Theorem select_shows_stored_result
    (subs : list Submission) (entries : list SymptomEntry)
    (st : AppState) (w : World) (i : nat) (e : SymptomEntry) :
  history st = JArr [] ->
  Forall2 successful subs entries ->
  (i < 10)%nat ->
  rev entries !! i = Some e ->
  on_select i (submit_all subs (st, w))
  = (setResult (entry_result e) (submit_all subs (st, w)).1,
     (submit_all subs (st, w)).2).
Proof.
  intros Hh Hall Hi He.
  pose proof (submit_all_history subs entries Hall st w [] Hh) as Hhist.
  rewrite app_nil_r in Hhist. specialize (Hhist ltac:(simpl; lia)).
  destruct (submit_all subs (st, w)) as [st' w']. cbn [fst snd] in *.
  apply (on_select_entry i e _ st' w' Hhist).
  rewrite lookup_take_lt by exact Hi.
  rewrite <- map_rev, list_lookup_fmap, He. reflexivity.
Qed.

(** ** A reply that arrives after the history was cleared *)

(** X2. The handler works on the history it saw when the form was
    submitted. When the user clears a non-empty history while a request is
    pending and the reply then succeeds, the cleared entries come back,
    behind the new one, in the state and in the storage. *)
Theorem cleared_history_returns_with_late_reply
    (s : Session) (reply : Reply) (uuid : jsstring) (now : N)
    (data : JSValue) (items : list JSValue) :
  in_flight s = [] ->
  isLoading (app s) = false ->
  trim (symptoms (app s)) <> [] ->
  history (app s) = JArr items ->
  items <> [] ->
  (forall w, (getDiagnosis_settle reply w).1 = Returns data) ->
  let cleared := run_ui [USubmit; UClear] s in
  let settled := run_ui [USubmit; UClear; UReply 0 reply uuid now] s in
  history (app cleared) = JArr []
  /\ localStorage.getItem history_key (world cleared) = None
  /\ history (app settled)
     = JArr (entry_object {| entry_id := uuid; entry_timestamp := now;
                             entry_symptoms := symptoms (app s);
                             entry_result := data |}
             :: firstn 9 items)
  /\ localStorage.getItem history_key (world settled)
     = Some (JSON.stringify (history (app settled))).
Proof.
  intros Hf Hl Hne Hh Hitems Hdata. cbv zeta.
  assert (Hd : submit_disabled (app s) = false).
  { unfold submit_disabled. rewrite Hl. apply truthy_true in Hne. now rewrite Hne. }
  change [USubmit; UClear; UReply 0 reply uuid now]
    with ([USubmit; UClear] ++ [UReply 0 reply uuid now]).
  rewrite run_ui_app.
  assert (Hmid : run_ui [USubmit; UClear] s
                 = {| app := setHistory (JArr []) (setIsLoading true (app s));
                      world := localStorage.removeItem history_key
                                 (getDiagnosis_send (symptoms (app s)) (world s));
                      in_flight := [{| sent_symptoms := symptoms (app s);
                                       seen_history := JArr items |}] |}).
  { unfold run_ui, run_events. cbn [List.map fold_left ui session_step].
    destruct (click_submit_enabled (app s) (world s) Hd) as [_ ->].
    cbn [app world in_flight]. unfold click_clear. cbn [fst snd].
    cbn [history setIsLoading]. rewrite Hh, Hf.
    destruct items as [| x l]; [congruence |]. reflexivity. }
  rewrite Hmid. split; [reflexivity |].
  split.
  { unfold localStorage.getItem, localStorage.removeItem. cbn [world storage with_storage].
    apply lookup_delete_eq. }
  unfold run_ui, run_events. cbn [List.map fold_left ui session_step in_flight].
  cbn [lookup list_lookup app world].
  rewrite (handleDiagnosis_settle_success _ reply uuid now _ _ data items (Hdata _))
    by reflexivity.
  cbn [fst snd sent_symptoms]. split; [reflexivity |].
  unfold localStorage.getItem, localStorage.setItem. cbn [storage with_storage].
  apply lookup_insert_eq.
Qed.

(** ** Round trip through [JSON.stringify] and [JSON.parse] *)

Lemma JSValue_nested_ind (P : JSValue -> Prop) :
  P JNull ->
  (forall b, P (JBool b)) ->
  (forall lexeme, P (JNum lexeme)) ->
  (forall s, P (JStr s)) ->
  (forall items, Forall P items -> P (JArr items)) ->
  (forall props, Forall (fun p => P p.2) props -> P (JObj props)) ->
  forall v, P v.
Proof.
  intros Hnull Hbool Hnum Hstr Harr Hobj.
  fix IH 1.
  intros [| b | lexeme | s | items | props];
    [exact Hnull | apply Hbool | apply Hnum | apply Hstr | apply Harr | apply Hobj].
  - induction items as [| x items IHitems]; constructor; [apply IH | exact IHitems].
  - induction props as [| [k x] props IHprops]; constructor; [apply IH | exact IHprops].
Qed.

Lemma canonical_items (items : list JSValue) :
  canonical (JArr items) <-> Forall canonical items.
Proof.
  simpl. induction items as [| x items IH]; simpl.
  - split; auto.
  - rewrite Forall_cons. now rewrite IH.
Qed.

Lemma canonical_props (props : list (jsstring * JSValue)) :
  canonical (JObj props)
  <-> ordered_keys (List.map fst props) /\ Forall (fun p => canonical p.2) props.
Proof.
  simpl. apply and_iff_compat_l.
  induction props as [| p props IH]; simpl.
  - split; auto.
  - rewrite Forall_cons. now rewrite IH.
Qed.

(** Decide the comparisons of code units in sight. *)
Ltac split_tests :=
  repeat match goal with
    | |- context [N.eqb ?a ?b] => destruct (N.eqb_spec a b)
    | |- context [N.leb ?a ?b] => destruct (N.leb_spec a b)
    | |- context [N.ltb ?a ?b] => destruct (N.ltb_spec a b)
    | H : context [N.eqb ?a ?b] |- _ => destruct (N.eqb_spec a b)
    | H : context [N.leb ?a ?b] |- _ => destruct (N.leb_spec a b)
    | H : context [N.ltb ?a ?b] |- _ => destruct (N.ltb_spec a b)
    end;
  simpl in *; try discriminate; try congruence; try lia; auto.

(** *** The lexer on serialised text *)

Lemma lex_skip (a r : jsstring) : JSON.lex (length a) (a ++ r) = JSON.lex 0 r.
Proof. induction a as [| c a IH]; [reflexivity | exact IH]. Qed.

Lemma lex_skip_cons (n : nat) (c : N) (r : jsstring) :
  JSON.lex (S n) (c :: r) = JSON.lex n r.
Proof. reflexivity. Qed.

Lemma hex_digit_val (d : N) : d < 16 -> JSON.hex_val (JSON.hex_digit d) = Some d.
Proof.
  intros H.
  assert (Hd : d = 0 \/ d = 1 \/ d = 2 \/ d = 3 \/ d = 4 \/ d = 5 \/ d = 6 \/ d = 7
               \/ d = 8 \/ d = 9 \/ d = 10 \/ d = 11 \/ d = 12 \/ d = 13 \/ d = 14
               \/ d = 15) by lia.
  repeat (destruct Hd as [-> | Hd]; [reflexivity |]). now subst.
Qed.

Lemma hex4_unicode_escape (c : N) (r : jsstring) :
  c < 65536 ->
  exists h1 h2 h3 h4,
    JSON.unicode_escape c = [92; 117; h1; h2; h3; h4]
    /\ JSON.hex4 h1 h2 h3 h4 = Some c.
Proof.
  intros H. unfold JSON.unicode_escape. do 4 eexists. split; [reflexivity |].
  unfold JSON.hex4.
  rewrite !hex_digit_val by (apply N.mod_lt; lia).
  f_equal.
  replace (c / 256) with (c / 16 / 16) by (rewrite N.Div0.div_div; reflexivity).
  replace (c / 4096) with (c / 16 / 16 / 16)
    by (rewrite !N.Div0.div_div; reflexivity).
  pose proof (N.div_mod c 16 ltac:(lia)).
  pose proof (N.div_mod (c / 16) 16 ltac:(lia)).
  pose proof (N.div_mod (c / 16 / 16) 16 ltac:(lia)).
  assert (c / 16 / 16 / 16 < 16).
  { apply N.Div0.div_lt_upper_bound. apply N.Div0.div_lt_upper_bound.
    apply N.Div0.div_lt_upper_bound. lia. }
  rewrite (N.mod_small (c / 16 / 16 / 16) 16) by lia.
  lia.
Qed.

Lemma scan_string_plain (c : N) (r : jsstring) :
  c <> 34 -> c <> 92 ->
  JSON.scan_string (c :: r)
  = if (c <? 32) || (c =? 92) then None
    else match JSON.scan_string r with
         | Some (body, n) => Some (c :: body, S n)
         | None => None
         end.
Proof.
  intros H34 H92. destruct c as [| p]; [reflexivity |].
  do 7 (try destruct p as [p | p |]); try reflexivity; congruence.
Qed.

Lemma scan_string_unicode_escape (c : N) (r : jsstring) :
  c < 65536 ->
  JSON.scan_string (JSON.unicode_escape c ++ r)
  = match JSON.scan_string r with
    | Some (body, n) => Some (c :: body, (6 + n)%nat)
    | None => None
    end.
Proof.
  intros H. destruct (hex4_unicode_escape c r H) as (h1 & h2 & h3 & h4 & -> & Hh).
  cbn [List.app JSON.scan_string]. rewrite Hh.
  now destruct (JSON.scan_string r) as [[body n] |].
Qed.

Lemma scan_string_quote_body (n : nat) :
  forall (s rest : jsstring),
    (length s < n)%nat ->
    JSON.scan_string (JSON.quote_body s ++ 34 :: rest)
    = Some (s, S (length (JSON.quote_body s))).
Proof.
  induction n as [| n IH]; intros s rest Hlen; [lia |].
  destruct s as [| c r]; [reflexivity |].
  simpl in Hlen.
  assert (IHr : JSON.scan_string (JSON.quote_body r ++ 34 :: rest)
                = Some (r, S (length (JSON.quote_body r)))) by (apply IH; lia).
  assert (Hescaped : c < 65536 ->
            JSON.scan_string ((JSON.unicode_escape c ++ JSON.quote_body r) ++ 34 :: rest)
            = Some (c :: r, S (length (JSON.unicode_escape c ++ JSON.quote_body r)))).
  { intros Hc. rewrite <- app_assoc, scan_string_unicode_escape, IHr by exact Hc.
    rewrite length_app. reflexivity. }
  assert (Hshort : forall e u, JSON.unescape e = Some u -> e <> 117 -> u = c ->
            JSON.scan_string (([92; e] ++ JSON.quote_body r) ++ 34 :: rest)
            = Some (c :: r, S (length ([92; e] ++ JSON.quote_body r)))).
  { intros e u Hu He <-. cbn [List.app].
    transitivity (match JSON.unescape e, JSON.scan_string (JSON.quote_body r ++ 34 :: rest) with
                  | Some u, Some (body, n) => Some (u :: body, (2 + n)%nat)
                  | _, _ => None
                  end).
    - destruct e as [| p]; [reflexivity |].
      do 7 (try destruct p as [p | p |]); try reflexivity; congruence.
    - rewrite Hu, IHr. reflexivity. }
  cbn [JSON.quote_body].
  destruct (N.eqb_spec c 8); [apply (Hshort 98 8); [reflexivity | lia | auto] |].
  destruct (N.eqb_spec c 9); [apply (Hshort 116 9); [reflexivity | lia | auto] |].
  destruct (N.eqb_spec c 10); [apply (Hshort 110 10); [reflexivity | lia | auto] |].
  destruct (N.eqb_spec c 12); [apply (Hshort 102 12); [reflexivity | lia | auto] |].
  destruct (N.eqb_spec c 13); [apply (Hshort 114 13); [reflexivity | lia | auto] |].
  destruct (N.eqb_spec c 34); [apply (Hshort 34 34); [reflexivity | lia | auto] |].
  destruct (N.eqb_spec c 92); [apply (Hshort 92 92); [reflexivity | lia | auto] |].
  destruct (N.ltb_spec c 32); [apply Hescaped; lia |].
  assert (Hplain : forall x, JSON.scan_string (x ++ 34 :: rest) = Some (r, S (length x)) ->
            JSON.scan_string ((c :: x) ++ 34 :: rest) = Some (c :: r, S (length (c :: x)))).
  { intros x Hx. cbn [List.app]. rewrite scan_string_plain by assumption.
    destruct (N.ltb_spec c 32); [lia |]. destruct (N.eqb_spec c 92); [congruence |].
    simpl. now rewrite Hx. }
  destruct (JSON.is_lead c) eqn:Hlead.
  - unfold JSON.is_lead in Hlead. apply andb_true_iff in Hlead as [Hl1 Hl2].
    apply N.leb_le in Hl1, Hl2.
    destruct r as [| d r'].
    + rewrite <- (app_nil_r (JSON.unicode_escape c)). apply Hescaped. lia.
    + destruct (JSON.is_trail d) eqn:Htrail.
      * unfold JSON.is_trail in Htrail. apply andb_true_iff in Htrail as [Ht1 Ht2].
        apply N.leb_le in Ht1, Ht2.
        assert (IHr' : JSON.scan_string (JSON.quote_body r' ++ 34 :: rest)
                       = Some (r', S (length (JSON.quote_body r'))))
          by (apply IH; simpl in Hlen; lia).
        cbn [List.app].
        rewrite scan_string_plain by lia.
        destruct (N.ltb_spec c 32); [lia |]. destruct (N.eqb_spec c 92); [lia |].
        cbn [orb]. rewrite scan_string_plain by lia.
        destruct (N.ltb_spec d 32); [lia |]. destruct (N.eqb_spec d 92); [lia |].
        cbn [orb]. rewrite IHr'. reflexivity.
      * apply Hescaped. lia.
  - destruct (JSON.is_trail c) eqn:Htrail.
    + unfold JSON.is_trail in Htrail. apply andb_true_iff in Htrail as [Ht1 Ht2].
      apply N.leb_le in Ht1, Ht2. apply Hescaped. lia.
    + now apply Hplain.
Qed.

Lemma lex_string (s rest : jsstring) :
  JSON.lex 0 (JSON.quote s ++ rest) = cons (JSON.TString s) <$> JSON.lex 0 rest.
Proof.
  unfold JSON.quote. rewrite <- !app_assoc. cbn [List.app JSON.lex].
  change (JSON.is_ws 34) with false. cbn [N.eqb Pos.eqb].
  rewrite (scan_string_quote_body (S (length s)) s rest) by lia.
  replace (S (length (JSON.quote_body s))) with (length (JSON.quote_body s ++ [34]))
    by (rewrite length_app; simpl; lia).
  replace (JSON.quote_body s ++ 34 :: rest) with ((JSON.quote_body s ++ [34]) ++ rest)
    by (now rewrite <- app_assoc).
  now rewrite lex_skip.
Qed.

Lemma num_step_char (q q' : JSON.num_state) (c : N) :
  JSON.num_step q c = Some q' -> JSON.is_num_char c = true.
Proof.
  unfold JSON.num_step, JSON.is_num_char, JSON.is_digit.
  destruct q; intros H; split_tests.
Qed.

Lemma num_run_chars (l : jsstring) :
  forall q, JSON.num_run q l = true -> forallb JSON.is_num_char l = true.
Proof.
  induction l as [| c l IH]; intros q H; [reflexivity |].
  simpl in H. destruct (JSON.num_step q c) as [q' |] eqn:Hq; [| discriminate].
  cbn [forallb]. rewrite (num_step_char q q' c Hq). now apply (IH q').
Qed.

Lemma num_span_app (l rest : jsstring) :
  forallb JSON.is_num_char l = true -> ends_number rest ->
  JSON.num_span (l ++ rest) = l.
Proof.
  intros Hl Hrest. induction l as [| c l IH]; cbn [List.app JSON.num_span].
  - destruct rest as [| c r]; [reflexivity |].
    cbn [JSON.num_span]. unfold ends_number in Hrest. now rewrite Hrest.
  - cbn [forallb] in Hl. apply andb_true_iff in Hl as [Hc Hl]. rewrite Hc, IH; auto.
Qed.

Lemma lex_number_head (c : N) (r : jsstring) :
  c = 45 \/ JSON.is_digit c = true ->
  JSON.lex 0 (c :: r)
  = if JSON.is_number (JSON.num_span (c :: r))
    then cons (JSON.TNumber (JSON.num_span (c :: r)))
           <$> JSON.lex (Nat.pred (length (JSON.num_span (c :: r)))) r
    else None.
Proof.
  intros H.
  assert (Hc : c = 45 \/ c = 48 \/ c = 49 \/ c = 50 \/ c = 51 \/ c = 52 \/ c = 53
               \/ c = 54 \/ c = 55 \/ c = 56 \/ c = 57).
  { destruct H as [-> | H]; [auto |]. unfold JSON.is_digit in H.
    apply andb_true_iff in H as [H1 H2]. apply N.leb_le in H1, H2. lia. }
  repeat (destruct Hc as [-> | Hc]; [reflexivity |]). subst. reflexivity.
Qed.

Lemma is_number_head (c : N) (l : jsstring) :
  JSON.is_number (c :: l) = true -> c = 45 \/ JSON.is_digit c = true.
Proof.
  unfold JSON.is_number. simpl. unfold JSON.is_digit.
  destruct (N.eqb_spec c 45); [auto |].
  destruct (N.eqb_spec c 48); [subst; auto |].
  destruct ((48 <=? c) && (c <=? 57)); [auto | discriminate].
Qed.

Lemma lex_number (l rest : jsstring) :
  JSON.is_number l = true -> ends_number rest ->
  JSON.lex 0 (l ++ rest) = cons (JSON.TNumber l) <$> JSON.lex 0 rest.
Proof.
  intros Hl Hrest. destruct l as [| c l]; [discriminate |].
  cbn [List.app]. rewrite lex_number_head by (eapply is_number_head; eauto).
  change (c :: l ++ rest) with ((c :: l) ++ rest).
  rewrite num_span_app; [| eapply num_run_chars; exact Hl | exact Hrest].
  rewrite Hl. cbn [length Nat.pred]. now rewrite lex_skip.
Qed.

Lemma join_cons (p : jsstring) (ps : list jsstring) :
  JSON.join (p :: ps) = p ++ flat_map (fun x => 44 :: x) ps.
Proof.
  revert p. induction ps as [| q qs IH]; intros p.
  - simpl. now rewrite app_nil_r.
  - change (JSON.join (p :: q :: qs)) with (p ++ [44] ++ JSON.join (q :: qs)).
    now rewrite IH.
Qed.

Lemma comma_join_cons (p : list JSON.token) (ps : list (list JSON.token)) :
  comma_join (p :: ps) = p ++ flat_map (fun x => JSON.TComma :: x) ps.
Proof.
  revert p. induction ps as [| q qs IH]; intros p.
  - simpl. now rewrite app_nil_r.
  - change (comma_join (p :: q :: qs)) with (p ++ [JSON.TComma] ++ comma_join (q :: qs)).
    now rewrite IH.
Qed.

Lemma fmap_cons_app {A : Type} (t : A) (l : list A) (x : option (list A)) :
  cons t <$> (List.app l <$> x) = List.app (t :: l) <$> x.
Proof. now destruct x. Qed.

Lemma fmap_app_app {A : Type} (l1 l2 : list A) (x : option (list A)) :
  List.app l1 <$> (List.app l2 <$> x) = List.app (l1 ++ l2) <$> x.
Proof. destruct x; simpl; [| reflexivity]. now rewrite app_assoc. Qed.

Lemma fmap_cons_one {A : Type} (t : A) (x : option (list A)) :
  cons t <$> x = List.app [t] <$> x.
Proof. now destruct x. Qed.

Lemma ends_number_flat (ps : list jsstring) (c : N) (rest : jsstring) :
  JSON.is_num_char c = false ->
  ends_number (flat_map (fun x => 44 :: x) ps ++ c :: rest).
Proof. intros Hc. destruct ps as [| p ps]; simpl; [exact Hc | reflexivity]. Qed.

(** The elements after the first, each behind its comma, up to and
    including the closing bracket. *)
Lemma lex_more_items (items : list JSValue) :
  Forall (fun v => forall rest, ends_number rest ->
            JSON.lex 0 (JSON.stringify v ++ rest)
            = List.app (json_tokens v) <$> JSON.lex 0 rest) items ->
  forall rest,
    JSON.lex 0 (flat_map (fun x => 44 :: x) (List.map JSON.stringify items)
                ++ 93 :: rest)
    = List.app (flat_map (fun x => JSON.TComma :: x) (List.map json_tokens items)
                ++ [JSON.TRBracket])
      <$> JSON.lex 0 rest.
Proof.
  induction 1 as [| v items Hv _ IH]; intros rest.
  - simpl. now destruct (JSON.lex 0 rest).
  - cbn [List.map flat_map]. rewrite <- !app_assoc.
    change ((44 :: JSON.stringify v) ++ ?x) with (44 :: (JSON.stringify v ++ x)).
    change (JSON.lex 0 (44 :: ?x)) with (cons JSON.TComma <$> JSON.lex 0 x).
    rewrite Hv by (apply ends_number_flat; reflexivity).
    rewrite IH, fmap_app_app, fmap_cons_app.
    f_equal; cbn [List.app]; now rewrite <- ?app_assoc.
Qed.

(** The members after the first. *)
Lemma lex_more_members (props : list (jsstring * JSValue)) :
  Forall (fun p => forall rest, ends_number rest ->
            JSON.lex 0 (JSON.stringify p.2 ++ rest)
            = List.app (json_tokens p.2) <$> JSON.lex 0 rest) props ->
  forall rest,
    JSON.lex 0
      (flat_map (fun x => 44 :: x)
         (List.map (fun p => match p with
                             | (k, x) => JSON.quote k ++ [58] ++ JSON.stringify x
                             end) props)
       ++ 125 :: rest)
    = List.app
        (flat_map (fun x => JSON.TComma :: x)
           (List.map (fun p => match p with
                               | (k, x) => JSON.TString k :: JSON.TColon :: json_tokens x
                               end) props)
         ++ [JSON.TRBrace])
      <$> JSON.lex 0 rest.
Proof.
  induction 1 as [| [k v] props Hv _ IH]; intros rest.
  - simpl. now destruct (JSON.lex 0 rest).
  - cbn [List.map flat_map]. rewrite <- !app_assoc.
    change ((44 :: JSON.quote k ++ [58] ++ JSON.stringify v) ++ ?x)
      with (44 :: ((JSON.quote k ++ [58] ++ JSON.stringify v) ++ x)).
    change (JSON.lex 0 (44 :: ?x)) with (cons JSON.TComma <$> JSON.lex 0 x).
    rewrite <- !app_assoc, lex_string.
    cbn [List.app].
    change (JSON.lex 0 (58 :: ?x)) with (cons JSON.TColon <$> JSON.lex 0 x).
    cbn [snd] in Hv. rewrite Hv by (apply ends_number_flat; reflexivity).
    rewrite IH, fmap_app_app, !fmap_cons_app.
    f_equal; cbn [List.app]; now rewrite <- ?app_assoc.
Qed.

Lemma lex_stringify (v : JSValue) :
  canonical v ->
  forall rest, ends_number rest ->
    JSON.lex 0 (JSON.stringify v ++ rest)
    = List.app (json_tokens v) <$> JSON.lex 0 rest.
Proof.
  induction v as [| b | lexeme | s | items IH | props IH] using JSValue_nested_ind;
    intros Hv rest Hrest.
  - simpl. now destruct (JSON.lex 0 rest).
  - destruct b; simpl; now destruct (JSON.lex 0 rest).
  - cbn [JSON.stringify json_tokens]. rewrite lex_number by assumption.
    apply fmap_cons_one.
  - cbn [JSON.stringify json_tokens]. rewrite lex_string. apply fmap_cons_one.
  - apply canonical_items in Hv.
    assert (IH' : Forall (fun v => forall rest, ends_number rest ->
                    JSON.lex 0 (JSON.stringify v ++ rest)
                    = List.app (json_tokens v) <$> JSON.lex 0 rest) items).
    { apply Forall_forall. intros x Hx. rewrite Forall_forall in IH, Hv. auto. }
    clear IH Hv. cbn [JSON.stringify json_tokens]. rewrite <- !app_assoc.
    cbn [List.app].
    change (JSON.lex 0 (91 :: ?x)) with (cons JSON.TLBracket <$> JSON.lex 0 x).
    destruct IH' as [| x items Hx IH'].
    + simpl. now destruct (JSON.lex 0 rest).
    + cbn [List.map]. rewrite join_cons, comma_join_cons, <- !app_assoc.
      rewrite Hx by (apply ends_number_flat; reflexivity).
      rewrite (lex_more_items items IH' rest), fmap_app_app, fmap_cons_app.
      f_equal; now rewrite <- ?app_assoc.
  - apply canonical_props in Hv as [_ Hv].
    assert (IH' : Forall (fun p => forall rest, ends_number rest ->
                    JSON.lex 0 (JSON.stringify p.2 ++ rest)
                    = List.app (json_tokens p.2) <$> JSON.lex 0 rest) props).
    { apply Forall_forall. intros x Hx. rewrite Forall_forall in IH, Hv. auto. }
    clear IH Hv. cbn [JSON.stringify json_tokens]. rewrite <- !app_assoc.
    cbn [List.app].
    change (JSON.lex 0 (123 :: ?x)) with (cons JSON.TLBrace <$> JSON.lex 0 x).
    destruct IH' as [| [k x] props Hx IH'].
    + simpl. now destruct (JSON.lex 0 rest).
    + cbn [List.map]. rewrite join_cons, comma_join_cons, <- !app_assoc.
      rewrite lex_string. cbn [List.app].
      change (JSON.lex 0 (58 :: ?y)) with (cons JSON.TColon <$> JSON.lex 0 y).
      cbn [snd] in Hx. rewrite Hx by (apply ends_number_flat; reflexivity).
      pose proof (lex_more_members props IH' rest) as Hm.
      cbn [List.app] in Hm. rewrite Hm.
      destruct (JSON.lex 0 rest) as [ts |]; [| reflexivity].
      simpl. now rewrite <- !app_assoc.
Qed.

(** *** Properties defined in enumeration order *)

Lemma replace_prop_fresh (k : jsstring) (v : JSValue) (props : list (jsstring * JSValue)) :
  k ∉ List.map fst props -> JSON.replace_prop k v props = None.
Proof.
  induction props as [| [k' v'] props IH]; intros Hk; [reflexivity |].
  cbn [List.map fst] in Hk. apply not_elem_of_cons in Hk as [Hne Hk].
  cbn [JSON.replace_prop]. rewrite decide_False by exact Hne.
  now rewrite IH.
Qed.

Lemma keys_in_order_none (ks : list jsstring) :
  keys_in_order None ks -> Forall (fun k => JSON.array_index k = None) ks.
Proof.
  induction ks as [| k ks IH]; intros H; constructor;
    cbn [keys_in_order] in H; destruct (JSON.array_index k); tauto.
Qed.

Lemma keys_in_order_before_index (ks : list jsstring) (k : jsstring) (i : N) :
  JSON.array_index k = Some i ->
  forall l, keys_in_order (Some l) (ks ++ [k]) ->
    l <= i /\ Forall (fun k' => exists j, JSON.array_index k' = Some j /\ j <= i) ks.
Proof.
  intros Hi. induction ks as [| k' ks IH]; intros l H.
  - cbn [List.app keys_in_order] in H. rewrite Hi in H. split; [tauto | constructor].
  - cbn [List.app keys_in_order] in H.
    destruct (JSON.array_index k') as [j |] eqn:Hj.
    + destruct H as [Hl H]. destruct (IH j H) as [Hji Hall].
      split; [lia |]. constructor; [eauto | exact Hall].
    + apply keys_in_order_none in H. apply Forall_app in H as [_ H].
      inversion H; subst. congruence.
Qed.

Lemma insert_index_last (i : N) (k : jsstring) (v : JSValue)
    (props : list (jsstring * JSValue)) :
  Forall (fun k' => exists j, JSON.array_index k' = Some j /\ j <= i) (List.map fst props) ->
  JSON.insert_index i k v props = props ++ [(k, v)].
Proof.
  induction props as [| [k' v'] props IH]; intros H; [reflexivity |].
  cbn [List.map fst] in H. inversion H as [| ? ? (j & Hj & Hji) Hrest]; subst.
  cbn [JSON.insert_index]. rewrite Hj.
  destruct (N.ltb_spec i j); [lia |]. cbn [List.app]. now rewrite IH.
Qed.

Lemma define_last (k : jsstring) (v : JSValue) (props : list (jsstring * JSValue)) :
  ordered_keys (List.map fst props ++ [k]) ->
  JSON.define k v props = props ++ [(k, v)].
Proof.
  intros [Hnd Hord]. unfold JSON.define.
  rewrite replace_prop_fresh.
  2:{ apply NoDup_app in Hnd as (_ & Hdisj & _). intros Hin.
      apply (Hdisj k Hin). now left. }
  destruct (JSON.array_index k) as [i |] eqn:Hi; [| reflexivity].
  apply insert_index_last.
  now apply (keys_in_order_before_index _ k i Hi 0).
Qed.

Lemma keys_in_order_prefix (ks ks' : list jsstring) :
  forall lo, keys_in_order lo (ks ++ ks') -> keys_in_order lo ks.
Proof.
  induction ks as [| k ks IH]; intros lo H; [exact I |].
  cbn [List.app keys_in_order] in *.
  destruct (JSON.array_index k), lo; try tauto; try (destruct H; split; eauto); eauto.
Qed.

Lemma ordered_keys_prefix (ks ks' : list jsstring) :
  ordered_keys (ks ++ ks') -> ordered_keys ks.
Proof.
  intros [Hnd Hord]. split.
  - now apply NoDup_app in Hnd as (? & _ & _).
  - now apply keys_in_order_prefix in Hord.
Qed.

(** *** The automaton on the tokens of a value *)

Lemma run_more_items (items : list JSValue) :
  Forall reads_value items ->
  forall acc stack ts,
    JSON.run JSON.EMore (JSON.FArr acc :: stack)
      (flat_map (fun x => JSON.TComma :: x) (List.map json_tokens items)
       ++ JSON.TRBracket :: ts)
    = after_value (JArr (rev acc ++ items)) stack ts.
Proof.
  induction 1 as [| x items Hx _ IH]; intros acc stack ts.
  - cbn [List.map flat_map List.app JSON.run JSON.step JSON.close_array].
    rewrite app_nil_r. unfold after_value.
    now destruct (JSON.put (JArr (rev acc)) stack) as [[e' st'] |].
  - cbn [List.map flat_map]. rewrite <- app_assoc.
    cbn [List.app JSON.run JSON.step].
    rewrite (Hx JSON.EValue) by auto.
    unfold after_value at 1. cbn [JSON.put].
    rewrite IH. cbn [rev]. now rewrite <- app_assoc.
Qed.

Lemma run_more_members (props : list (jsstring * JSValue)) :
  Forall (fun p => reads_value p.2) props ->
  forall acc stack ts,
    ordered_keys (List.map fst (acc ++ props)) ->
    JSON.run JSON.EMore (JSON.FObj acc None :: stack)
      (flat_map (fun x => JSON.TComma :: x)
         (List.map (fun p => match p with
                             | (k, x) => JSON.TString k :: JSON.TColon :: json_tokens x
                             end) props)
       ++ JSON.TRBrace :: ts)
    = after_value (JObj (acc ++ props)) stack ts.
Proof.
  induction 1 as [| [k x] props Hx _ IH]; intros acc stack ts Hord.
  - cbn [List.map flat_map List.app JSON.run JSON.step JSON.close_object].
    rewrite app_nil_r. unfold after_value.
    now destruct (JSON.put (JObj acc) stack) as [[e' st'] |].
  - cbn [List.map flat_map]. rewrite <- app_assoc.
    cbn [List.app JSON.run JSON.step JSON.take_key].
    cbn [snd] in Hx. rewrite (Hx JSON.EValue) by auto.
    unfold after_value at 1. cbn [JSON.put].
    rewrite (define_last k x acc).
    2:{ rewrite map_app in Hord. cbn [List.map fst] in Hord.
        change (k :: List.map fst props) with ([k] ++ List.map fst props) in Hord.
        rewrite app_assoc in Hord. now apply ordered_keys_prefix in Hord. }
    rewrite IH by (now rewrite <- app_assoc).
    now rewrite <- app_assoc.
Qed.

Lemma canonical_reads_value (v : JSValue) : canonical v -> reads_value v.
Proof.
  induction v as [| b | lexeme | s | items IH | props IH] using JSValue_nested_ind;
    intros Hv e stack ts He.
  - destruct He as [-> | ->]; reflexivity.
  - destruct b, He as [-> | ->]; reflexivity.
  - destruct He as [-> | ->]; reflexivity.
  - destruct He as [-> | ->]; reflexivity.
  - apply canonical_items in Hv.
    assert (IH' : Forall reads_value items).
    { apply Forall_forall. intros x Hx. rewrite Forall_forall in IH, Hv. auto. }
    clear IH Hv. cbn [json_tokens]. rewrite <- !app_assoc. cbn [List.app].
    transitivity (JSON.run JSON.EArrFirst (JSON.FArr [] :: stack)
                    (comma_join (List.map json_tokens items) ++ JSON.TRBracket :: ts)).
    { destruct He as [-> | ->]; reflexivity. }
    destruct IH' as [| x items Hx IH'].
    + cbn [List.map comma_join List.app JSON.run JSON.step JSON.close_array rev].
      unfold after_value.
      now destruct (JSON.put (JArr []) stack) as [[e' st'] |].
    + cbn [List.map]. rewrite comma_join_cons, <- app_assoc.
      rewrite (Hx JSON.EArrFirst) by auto.
      unfold after_value at 1. cbn [JSON.put].
      now rewrite (run_more_items items IH').
  - apply canonical_props in Hv as [Hord Hv].
    assert (IH' : Forall (fun p => reads_value p.2) props).
    { apply Forall_forall. intros x Hx. rewrite Forall_forall in IH, Hv. auto. }
    clear IH Hv. cbn [json_tokens]. rewrite <- !app_assoc. cbn [List.app].
    transitivity (JSON.run JSON.EObjFirst (JSON.FObj [] None :: stack)
                    (comma_join
                       (List.map (fun p => match p with
                                           | (k, x) =>
                                               JSON.TString k :: JSON.TColon :: json_tokens x
                                           end) props)
                     ++ JSON.TRBrace :: ts)).
    { destruct He as [-> | ->]; reflexivity. }
    destruct IH' as [| [k x] props Hx IH'].
    + cbn [List.map comma_join List.app JSON.run JSON.step JSON.close_object].
      unfold after_value.
      now destruct (JSON.put (JObj []) stack) as [[e' st'] |].
    + cbn [List.map]. rewrite comma_join_cons, <- app_assoc.
      cbn [List.app JSON.run JSON.step JSON.take_key].
      cbn [snd] in Hx. rewrite (Hx JSON.EValue) by auto.
      unfold after_value at 1. cbn [JSON.put].
      rewrite (define_last k x []).
      2:{ cbn [List.map fst] in Hord.
          change (k :: List.map fst props) with ([k] ++ List.map fst props) in Hord.
          now apply ordered_keys_prefix in Hord. }
      cbn [List.app].
      now rewrite (run_more_members props IH' [(k, x)] stack ts Hord).
Qed.

(** Parsing what [JSON.stringify] wrote gives the value back. *)
Lemma parse_stringify (v : JSValue) :
  canonical v -> JSON.parse (JSON.stringify v) = Some v.
Proof.
  intros Hv. unfold JSON.parse.
  rewrite <- (app_nil_r (JSON.stringify v)), lex_stringify by (auto; exact I).
  cbn [JSON.lex fmap option_fmap option_map].
  rewrite (canonical_reads_value v Hv JSON.EValue) by auto.
  reflexivity.
Qed.

(** *** What [JSON.parse] returns is canonical *)

Lemma replace_prop_some (k : jsstring) (v : JSValue)
    (props props' : list (jsstring * JSValue)) (P : JSValue -> Prop) :
  JSON.replace_prop k v props = Some props' ->
  List.map fst props' = List.map fst props
  /\ (P v -> Forall (fun p => P p.2) props -> Forall (fun p => P p.2) props').
Proof.
  revert props'. induction props as [| [k' v'] props IH]; intros props' H;
    [discriminate |].
  cbn [JSON.replace_prop] in H. destruct (decide (k = k')) as [-> | Hne].
  - injection H as <-. split; [reflexivity |].
    intros Hv Hall. inversion Hall; subst. now constructor.
  - destruct (JSON.replace_prop k v props) as [props1 |]; [| discriminate].
    injection H as <-. destruct (IH props1 eq_refl) as [Hk Hp].
    split; [cbn [List.map fst]; now rewrite Hk |].
    intros Hv Hall. inversion Hall; subst. constructor; auto.
Qed.

Lemma replace_prop_none (k : jsstring) (v : JSValue) (props : list (jsstring * JSValue)) :
  JSON.replace_prop k v props = None -> k ∉ List.map fst props.
Proof.
  induction props as [| [k' v'] props IH]; intros H; [apply not_elem_of_nil |].
  cbn [JSON.replace_prop] in H. destruct (decide (k = k')); [discriminate |].
  destruct (JSON.replace_prop k v props); [discriminate |].
  cbn [List.map fst]. apply not_elem_of_cons. auto.
Qed.

Lemma insert_index_perm (i : N) (k : jsstring) (v : JSValue)
    (props : list (jsstring * JSValue)) :
  JSON.insert_index i k v props ≡ₚ (k, v) :: props.
Proof.
  induction props as [| [k' v'] props IH]; [reflexivity |].
  cbn [JSON.insert_index]. destruct (JSON.array_index k'); [| reflexivity].
  destruct (i <? n); [reflexivity |].
  rewrite IH. apply Permutation_swap.
Qed.

Lemma insert_index_order (i : N) (k : jsstring) (v : JSValue) :
  JSON.array_index k = Some i ->
  forall props l,
    l <= i ->
    keys_in_order (Some l) (List.map fst props) ->
    keys_in_order (Some l) (List.map fst (JSON.insert_index i k v props)).
Proof.
  intros Hi. induction props as [| [k' v'] props IH]; intros l Hl H.
  - cbn [JSON.insert_index List.map fst keys_in_order]. now rewrite Hi.
  - cbn [JSON.insert_index]. cbn [List.map fst keys_in_order] in H.
    destruct (JSON.array_index k') as [j |] eqn:Hj.
    + destruct H as [Hlj H]. destruct (N.ltb_spec i j).
      * cbn [List.map fst keys_in_order]. rewrite Hi, Hj. repeat split; auto; lia.
      * cbn [List.map fst keys_in_order]. rewrite Hj. split; [exact Hlj |].
        apply IH; [lia | exact H].
    + cbn [List.map fst keys_in_order]. rewrite Hi, Hj. split; [exact Hl | exact H].
Qed.

Lemma keys_in_order_other_last (k : jsstring) (ks : list jsstring) :
  JSON.array_index k = None ->
  forall lo, keys_in_order lo ks -> keys_in_order lo (ks ++ [k]).
Proof.
  intros Hk. induction ks as [| k' ks IH]; intros lo H.
  - cbn [List.app keys_in_order]. now rewrite Hk.
  - cbn [List.app keys_in_order] in *.
    destruct (JSON.array_index k'), lo; try tauto; try (destruct H; split; auto); auto.
Qed.

Lemma define_canonical (k : jsstring) (v : JSValue) (props : list (jsstring * JSValue)) :
  canonical v -> canonical (JObj props) -> canonical (JObj (JSON.define k v props)).
Proof.
  intros Hv Hprops. apply canonical_props in Hprops as [[Hnd Hord] Hvals].
  apply canonical_props. unfold JSON.define.
  destruct (JSON.replace_prop k v props) as [props' |] eqn:Hrep.
  - destruct (replace_prop_some k v props props' canonical Hrep) as [Hkeys Hp].
    rewrite Hkeys. split; [split; assumption | auto].
  - apply replace_prop_none in Hrep.
    destruct (JSON.array_index k) as [i |] eqn:Hi.
    + split; [split |].
      * rewrite (insert_index_perm i k v props). cbn [List.map fst]. now constructor.
      * apply insert_index_order; [exact Hi | lia | exact Hord].
      * rewrite (insert_index_perm i k v props). now constructor.
    + split; [split |].
      * rewrite map_app. cbn [List.map fst].
        apply NoDup_app. split; [exact Hnd |]. split; [| apply NoDup_singleton].
        intros x Hx Hx'. apply list_elem_of_singleton in Hx'. now subst.
      * rewrite map_app. now apply keys_in_order_other_last.
      * apply Forall_app. split; [exact Hvals |]. now constructor.
Qed.

Lemma lex_tokens_ok (s : jsstring) :
  forall k ts, JSON.lex k s = Some ts -> Forall token_ok ts.
Proof.
  induction s as [| c r IH]; intros k ts H.
  - injection H as <-. constructor.
  - destruct k as [| k]; [| exact (IH k ts H)].
    cbn [JSON.lex] in H. cbv zeta in H.
    repeat match type of H with
           | (if ?b then _ else _) = _ => destruct b eqn:?
           | match ?x with _ => _ end = _ => destruct x as [[? ?] |] eqn:?
           end;
      try discriminate; try exact (IH _ _ H);
      match type of H with
      | cons ?t <$> JSON.lex ?n r = Some ts =>
          destruct (JSON.lex n r) as [ts' |] eqn:Hl; [| discriminate];
          injection H as <-; constructor; [| exact (IH _ _ Hl)]
      end; try exact I.
    assumption.
Qed.

Lemma put_ok (v : JSValue) (stack stack' : list JSON.frame) (e' : JSON.expect) :
  canonical v -> Forall frame_ok stack ->
  JSON.put v stack = Some (e', stack') -> state_ok e' stack'.
Proof.
  intros Hv Hst H. destruct stack as [| [acc | props [k |]] st]; simpl in H.
  - injection H as <- <-. split; [constructor | exact Hv].
  - injection H as <- <-. inversion Hst; subst. split; [| exact I].
    constructor; [| assumption]. simpl. now constructor.
  - injection H as <- <-. inversion Hst; subst. split; [| exact I].
    constructor; [| assumption]. now apply define_canonical.
  - discriminate.
Qed.

Lemma step_ok (e e' : JSON.expect) (stack stack' : list JSON.frame) (t : JSON.token) :
  token_ok t -> state_ok e stack ->
  JSON.step e stack t = Some (e', stack') -> state_ok e' stack'.
Proof.
  intros Ht [Hst He] H.
  assert (Hopen : forall x, JSON.open_value t stack = Some x -> state_ok x.1 x.2).
  { intros [e1 st1] Hx. destruct t; simpl in Hx; try discriminate;
      try (eapply put_ok; [| exact Hst | exact Hx]; simpl; auto; fail).
    - injection Hx as <- <-. split; [| exact I]. constructor; [| exact Hst].
      simpl. split; [split; [constructor | exact I] | exact I].
    - injection Hx as <- <-. split; [| exact I]. constructor; [| exact Hst].
      constructor. }
  assert (Hclose_arr : forall x, JSON.close_array stack = Some x -> state_ok x.1 x.2).
  { intros [e1 st1] Hx. destruct stack as [| [acc | props key] st]; try discriminate.
    simpl in Hx. inversion Hst; subst.
    eapply put_ok; [| eassumption | exact Hx].
    apply canonical_items. now apply Forall_rev. }
  assert (Hclose_obj : forall x, JSON.close_object stack = Some x -> state_ok x.1 x.2).
  { intros [e1 st1] Hx. destruct stack as [| [acc | props [key |]] st]; try discriminate.
    simpl in Hx. inversion Hst; subst.
    eapply put_ok; [| eassumption | exact Hx]. assumption. }
  assert (Hkey : forall x, JSON.take_key t stack = Some x -> state_ok x.1 x.2).
  { intros [e1 st1] Hx. destruct t; try discriminate.
    destruct stack as [| [acc | props [key |]] st]; try discriminate.
    simpl in Hx. injection Hx as <- <-. split; [| exact I].
    inversion Hst; subst. now constructor. }
  destruct e; simpl in H.
  - exact (Hopen _ H).
  - destruct t; try exact (Hopen _ H). exact (Hclose_arr _ H).
  - destruct t; try exact (Hkey _ H). exact (Hclose_obj _ H).
  - exact (Hkey _ H).
  - destruct t; try discriminate. injection H as <- <-. now split.
  - destruct t; try discriminate.
    + exact (Hclose_obj _ H).
    + exact (Hclose_arr _ H).
    + destruct stack as [| [acc | props key] st]; try discriminate;
        injection H as <- <-; now split.
  - discriminate.
Qed.

Lemma run_ok (ts : list JSON.token) :
  Forall token_ok ts ->
  forall e stack v, state_ok e stack -> JSON.run e stack ts = Some v -> canonical v.
Proof.
  induction 1 as [| t ts Ht _ IH]; intros e stack v Hok H.
  - simpl in H. destruct e; try discriminate.
    destruct stack; [| discriminate]. injection H as <-. apply Hok.
  - simpl in H. destruct (JSON.step e stack t) as [[e' stack'] |] eqn:Hstep;
      [| discriminate].
    exact (IH e' stack' v (step_ok e e' stack stack' t Ht Hok Hstep) H).
Qed.

(** Whatever [JSON.parse] returns can be written and read back. *)
Lemma parse_canonical (text : jsstring) (v : JSValue) :
  JSON.parse text = Some v -> canonical v.
Proof.
  unfold JSON.parse. destruct (JSON.lex 0 text) as [ts |] eqn:Hl; [| discriminate].
  apply run_ok; [exact (lex_tokens_ok text 0 ts Hl) |].
  split; [constructor | exact I].
Qed.

(** *** Entries are canonical *)

Lemma digits_run (d : Decimal.uint) :
  JSON.num_run JSON.NInt (str (NilEmpty.string_of_uint d)) = true.
Proof. induction d; [reflexivity | exact IHd ..]. Qed.

Lemma uint_is_number (d : Decimal.uint) :
  Decimal.unorm d = d -> JSON.is_number (str (NilZero.string_of_uint d)) = true.
Proof.
  destruct d; intros H; try exact (digits_run d); [discriminate |].
  rewrite DecimalFacts.unorm_D0 in H. unfold Decimal.unorm in H.
  destruct (Decimal.nzhead d) eqn:Hd;
    try (exfalso; exact (DecimalFacts.nzhead_nonzero d _ (eq_trans Hd H))).
  injection H as <-. reflexivity.
Qed.

Lemma digits_of_N_is_number (n : N) : JSON.is_number (digits_of_N n) = true.
Proof.
  unfold digits_of_N. apply uint_is_number.
  rewrite <- DecimalN.Unsigned.to_of. now rewrite DecimalN.Unsigned.of_to.
Qed.

Lemma entry_object_canonical (e : SymptomEntry) :
  canonical (entry_result e) -> canonical (entry_object e).
Proof.
  intros H. unfold entry_object. apply canonical_props. split.
  - split.
    + cbn [List.map fst].
      apply (bool_decide_unpack (NoDup [str "id"; str "timestamp"; str "symptoms"; str "result"])).
      vm_compute. exact I.
    + cbn [List.map fst]. vm_compute. exact I.
  - repeat constructor; cbn [snd canonical]; auto. apply digits_of_N_is_number.
Qed.

(** ** The stored history and the one on display *)

Lemma getDiagnosis_settle_canonical (reply : Reply) (w : World) (data : JSValue) :
  (getDiagnosis_settle reply w).1 = Returns data -> canonical data.
Proof.
  unfold getDiagnosis_settle. destruct reply as [reason | text]; [discriminate |].
  destruct (JSON.parse (text_or_braces text)) as [v |] eqn:Hp; [| discriminate].
  intros [= <-]. exact (parse_canonical _ _ Hp).
Qed.

Lemma getItem_setItem_same (k v : jsstring) (w : World) :
  localStorage.getItem k (localStorage.setItem k v w) = Some v.
Proof.
  unfold localStorage.getItem, localStorage.setItem. cbn [storage with_storage].
  apply lookup_insert_eq.
Qed.

Lemma getItem_setItem_other (k k' v : jsstring) (w : World) :
  k <> k' ->
  localStorage.getItem k' (localStorage.setItem k v w) = localStorage.getItem k' w.
Proof.
  intros H. unfold localStorage.getItem, localStorage.setItem.
  cbn [storage with_storage]. now apply lookup_insert_ne.
Qed.

Lemma handleDiagnosis_settle_consistent
    (p : Pending) (reply : Reply) (uuid : jsstring) (now : N)
    (st : AppState) (w : World) :
  canonical_array (history st) ->
  canonical_array (seen_history p) ->
  history_in_sync st w ->
  let out := handleDiagnosis_settle p reply uuid now st w in
  canonical_array (history out.1) /\ history_in_sync out.1 out.2.
Proof.
  intros Hst (items & Hp & Hitems) Hsync. cbv zeta.
  destruct (getDiagnosis_settle reply w).1 as [data | e] eqn:Hr.
  - rewrite (handleDiagnosis_settle_success p reply uuid now st w data items Hr)
      by now rewrite Hp.
    cbn [fst snd]. split.
    + eexists. split; [reflexivity |]. constructor.
      * apply entry_object_canonical. cbn [entry_result].
        exact (getDiagnosis_settle_canonical reply w data Hr).
      * now apply Forall_take.
    + unfold history_in_sync. now rewrite getItem_setItem_same.
  - rewrite (handleDiagnosis_settle_failure p reply uuid now st w e Hr).
    cbn [fst snd]. split; [exact Hst |].
    destruct (getDiagnosis_settle_keeps reply w) as (Hs & _ & _).
    unfold history_in_sync, localStorage.getItem in *. cbn [storage alert console_error].
    now rewrite Hs.
Qed.

Lemma ui_step_consistent (u : UIEvent) (s : Session) :
  consistent s -> consistent (session_step (ui u) s).
Proof.
  intros (Hst & Hfl & Hsync). unfold consistent.
  destruct u as [text | | k reply uuid now | | i | | | |]; cbn [ui session_step].
  - cbn. auto.
  - unfold click_submit, handleDiagnosis_submit.
    destruct (submit_disabled (app s)); [cbn; auto |].
    destruct (negb (truthy (trim (symptoms (app s))))); [cbn; auto |].
    cbn [app world in_flight]. split; [exact Hst |]. split; [| exact Hsync].
    apply Forall_app. split; [exact Hfl |]. now constructor.
  - destruct (in_flight s !! k) as [p |] eqn:Hk; [| auto].
    cbn [app world in_flight].
    destruct (handleDiagnosis_settle_consistent p reply uuid now (app s) (world s))
      as [H1 H2]; auto.
    { exact (Forall_lookup_1 _ _ _ _ Hfl Hk). }
    split; [exact H1 |]. split; [now apply Forall_delete | exact H2].
  - unfold click_clear. cbn [fst snd app world in_flight].
    destruct (history (app s)) as [| | | | [| x l] |] eqn:Hh;
      cbn [fst snd]; rewrite ?Hh; auto.
    split; [exists []; split; [reflexivity | constructor] |].
    split; [exact Hfl |].
    unfold history_in_sync. now rewrite clearHistory_removes_key.
  - assert (Hsame : forall v,
              canonical_array (history (setResult v (app s)))
              /\ Forall (fun p => canonical_array (seen_history p)) (in_flight s)
              /\ history_in_sync (setResult v (app s)) (world s)) by (intros v; auto).
    assert (Hkeep : canonical_array (history (app s))
              /\ Forall (fun p => canonical_array (seen_history p)) (in_flight s)
              /\ history_in_sync (app s) (world s)) by auto.
    unfold on_select. cbn [fst snd app world in_flight].
    destruct (history (app s)) as [| | | | items |] in |- *;
      cbn [fst snd]; try exact Hkeep.
    destruct (items !! i) as [[] |]; cbn [fst snd]; try exact Hkeep; apply Hsame.
  - unfold click_accept. cbn [fst snd app world in_flight].
    destruct (showDisclaimer (app s)); [| auto].
    cbn [fst snd handleAcceptDisclaimer]. split; [exact Hst |]. split; [exact Hfl |].
    unfold history_in_sync in *. rewrite getItem_setItem_other; [exact Hsync |].
    intros H. symmetry in H. now apply history_key_not_disclaimer_key in H.
  - unfold click_backdrop, on_backdrop. cbn [fst snd app world in_flight].
    destruct (showDisclaimer (app s)), (hasAcceptedDisclaimer (app s)); cbn; auto.
  - unfold click_close. cbn [fst snd app world in_flight].
    destruct (showDisclaimer (app s)), (hasAcceptedDisclaimer (app s)); cbn; auto.
  - cbn. auto.
Qed.

Lemma run_ui_consistent (us : list UIEvent) :
  forall s, consistent s -> consistent (run_ui us s).
Proof.
  induction us as [| u us IH]; intros s Hs; [exact Hs |].
  rewrite run_ui_cons. apply IH. now apply ui_step_consistent.
Qed.

(** In a consistent session the stored text parses to the history of the
    state, so a bound on the one is a bound on the other. *)
Lemma consistent_stored_bounded (s : Session) :
  consistent s -> bounded_history (history (app s)) -> stored_bounded (world s).
Proof.
  intros ((items & Hh & Hcan) & _ & Hsync) (items' & Hh' & Hlen).
  unfold stored_bounded. unfold history_in_sync in Hsync.
  destruct (localStorage.getItem history_key (world s)) as [t |]; [| exact I].
  exists items. split.
  - rewrite Hsync, Hh. apply parse_stringify. now apply canonical_items.
  - rewrite Hh in Hh'. injection Hh' as ->. exact Hlen.
Qed.

(** X7. The bound of ten holds under every use of the interface, not only
    under submissions that succeed one after the other. From a session
    where the stored history is the serialisation of the array in the
    state, and where the histories of the state and of the waiting handlers
    have at most ten entries, after any events (typing, clicks, replies
    that succeed or fail, clearing, selecting, the gate's buttons) the
    history of the state is an array of at most ten values, and the stored
    text, when there is one, parses to an array of at most ten values. *)
Theorem history_bounded_under_any_events (us : list UIEvent) (s : Session) :
  consistent s ->
  histories_bounded s ->
  bounded_history (history (app (run_ui us s)))
  /\ stored_bounded (world (run_ui us s)).
Proof.
  intros Hc Hs.
  assert (Hb : bounded_history (history (app (run_ui us s)))).
  { apply (run_events_histories_bounded (List.map ui us)); [| exact Hs].
    apply Forall_map, Forall_forall. intros u _. apply ui_keeps_history_bounded. }
  split; [exact Hb |].
  apply consistent_stored_bounded; [| exact Hb].
  now apply run_ui_consistent.
Qed.

Lemma stringify_array_nonempty (items : list JSValue) :
  JSON.stringify (JArr items) <> [].
Proof. discriminate. Qed.

(** A page load on a consistent device returns, with the history that was
    on display. *)
Lemma mount_effect_consistent (s : Session) :
  consistent s ->
  exists st,
    mount_effect App_init (world s) = Returns st
    /\ history st = history (app s)
    /\ (if decide (localStorage.getItem disclaimer_key (world s) = Some (str "true"))
        then showDisclaimer st = false /\ hasAcceptedDisclaimer st = true
        else showDisclaimer st = true /\ hasAcceptedDisclaimer st = false).
Proof.
  intros ((items & Hh & Hcan) & _ & Hsync). unfold history_in_sync in Hsync.
  destruct (localStorage.getItem history_key (world s)) as [t |] eqn:Ht.
  - rewrite (mount_effect_parsed_history App_init (world s) t (JArr items) Ht).
    2:{ rewrite Hsync, Hh. apply parse_stringify. now apply canonical_items. }
    eexists. split; [reflexivity |]. rewrite Hh.
    case_decide; cbn; auto.
  - rewrite mount_effect_no_history by auto.
    eexists. split; [reflexivity |]. rewrite Hsync.
    case_decide; cbn; auto.
Qed.

Lemma Session_init_consistent : consistent Session_init.
Proof.
  split; [| split].
  - exists []. split; [reflexivity | constructor].
  - constructor.
  - reflexivity.
Qed.

Lemma reload_consistent (s : Session) :
  consistent s ->
  exists s', reload s = Returns s'
             /\ consistent s'
             /\ world s' = world s
             /\ history (app s') = history (app s).
Proof.
  intros Hs. destruct (mount_effect_consistent s Hs) as (st & Hm & Hh & _).
  unfold reload. rewrite Hm. eexists. split; [reflexivity |].
  destruct Hs as (Hcan & _ & Hsync).
  split; [| split; [reflexivity | exact Hh]].
  split; [| split]; cbn [app world in_flight].
  - now rewrite Hh.
  - constructor.
  - unfold history_in_sync in *. now rewrite Hh.
Qed.

Lemma plain_items (items : list JSValue) :
  plain_numbers (JArr items) <-> Forall plain_numbers items.
Proof.
  cbn [plain_numbers]. induction items as [| x l IH]; cbn [fold_right].
  - split; [constructor | auto].
  - rewrite IH. split.
    + intros [Hx Hl]. now constructor.
    + intros H. inversion H. auto.
Qed.

Lemma entry_object_plain (e : SymptomEntry) :
  entry_timestamp e < 9007199254740992 ->
  plain_numbers (entry_result e) ->
  plain_numbers (entry_object e).
Proof.
  intros Ht Hr. unfold entry_object. cbn [plain_numbers fold_right snd].
  repeat split; eauto.
Qed.

Lemma ui_step_plain (u : UIEvent) (s : Session) :
  consistent s -> plain_event u -> plain_session s ->
  plain_session (session_step (ui u) s).
Proof.
  intros (_ & Hcan & _) Hu (Hst & Hfl). unfold plain_session.
  destruct u as [text | | k reply uuid now | | i | | | |]; cbn [ui session_step].
  - cbn. auto.
  - unfold click_submit, handleDiagnosis_submit.
    destruct (submit_disabled (app s)); [cbn; auto |].
    destruct (negb (truthy (trim (symptoms (app s))))); [cbn; auto |].
    cbn [app world in_flight]. split; [exact Hst |].
    apply Forall_app. split; [exact Hfl |]. now constructor.
  - destruct (in_flight s !! k) as [p |] eqn:Hk; [| auto].
    cbn [app world in_flight]. split; [| now apply Forall_delete].
    destruct Hu as [Hnow Hreply].
    destruct (Forall_lookup_1 _ _ _ _ Hcan Hk) as (items & Hp & _).
    pose proof (Forall_lookup_1 _ _ _ _ Hfl Hk) as Hplain. cbn beta in Hplain.
    rewrite Hp in Hplain. apply plain_items in Hplain.
    destruct (getDiagnosis_settle reply (world s)).1 as [data | e] eqn:Hr.
    + rewrite (handleDiagnosis_settle_success p reply uuid now (app s) (world s)
                 data items Hr) by now rewrite Hp.
      cbn [fst history setIsLoading setHistory]. apply plain_items. constructor.
      * apply entry_object_plain; cbn [entry_timestamp entry_result]; eauto.
      * now apply Forall_take.
    + rewrite (handleDiagnosis_settle_failure p reply uuid now (app s) (world s) e Hr).
      exact Hst.
  - unfold click_clear. cbn [fst snd app world in_flight].
    destruct (history (app s)) as [| | | | [| x l] |] eqn:Hh;
      cbn [fst snd]; rewrite ?Hh; auto.
  - assert (Hsame : forall v,
              plain_numbers (history (setResult v (app s)))
              /\ Forall (fun p => plain_numbers (seen_history p)) (in_flight s))
      by (intros v; auto).
    assert (Hkeep : plain_numbers (history (app s))
              /\ Forall (fun p => plain_numbers (seen_history p)) (in_flight s))
      by auto.
    unfold on_select. cbn [fst snd app world in_flight].
    destruct (history (app s)) as [| | | | items |] in |- *;
      cbn [fst snd]; try exact Hkeep.
    destruct (items !! i) as [[] |]; cbn [fst snd]; try exact Hkeep; apply Hsame.
  - unfold click_accept. cbn [fst snd app world in_flight].
    destruct (showDisclaimer (app s)); cbn; auto.
  - unfold click_backdrop, on_backdrop. cbn [fst snd app world in_flight].
    destruct (showDisclaimer (app s)), (hasAcceptedDisclaimer (app s)); cbn; auto.
  - unfold click_close. cbn [fst snd app world in_flight].
    destruct (showDisclaimer (app s)), (hasAcceptedDisclaimer (app s)); cbn; auto.
  - cbn. auto.
Qed.

Lemma run_ui_plain (us : list UIEvent) :
  forall s,
    consistent s -> Forall plain_event us -> plain_session s ->
    plain_session (run_ui us s).
Proof.
  induction us as [| u us IH]; intros s Hs Hus Hp; [exact Hp |].
  inversion Hus as [| ? ? Hu Hrest]; subst.
  rewrite run_ui_cons. apply IH; [now apply ui_step_consistent | exact Hrest |].
  now apply ui_step_plain.
Qed.

(** X9. The history on display is what a page load brings back. In a
    session where the stored history is the serialisation of the one in the
    state (as in the first one on a fresh device), and as long as the
    numbers in the diagnoses and the clock readings are integers below 2^53
    in plain digits, after any events the next mount effect returns and
    sets the history to the one the state holds at that moment, whose
    numbers are of that kind again. *)
Theorem reload_restores_history (us : list UIEvent) (s : Session) :
  consistent s ->
  plain_session s ->
  Forall plain_event us ->
  exists st,
    mount_effect App_init (world (run_ui us s)) = Returns st
    /\ history st = history (app (run_ui us s))
    /\ plain_numbers (history st).
Proof.
  intros Hs Hp Hus.
  destruct (mount_effect_consistent _ (run_ui_consistent us s Hs)) as (st & Hm & Hh & _).
  exists st. split; [exact Hm |]. split; [exact Hh |].
  rewrite Hh. exact (proj1 (run_ui_plain us s Hs Hus Hp)).
Qed.

Lemma run_sessions_consistent (sessions : list (list UIEvent)) :
  forall s, consistent s ->
    exists s', run_sessions sessions s = Returns s' /\ consistent s'.
Proof.
  induction sessions as [| us later IH]; intros s Hs; [eauto |].
  cbn [run_sessions].
  destruct (reload_consistent s Hs) as (s1 & -> & Hs1 & _).
  apply IH. now apply run_ui_consistent.
Qed.

(** X10. On a device that only this program writes to, every page load
    completes: whatever happened in the sessions before (submissions that
    succeeded or failed, whatever the replies; clearing; accepting), the
    mount effect of the next session finds a history it can parse, and
    does not throw. *)
Theorem every_page_load_completes (sessions : list (list UIEvent)) :
  exists s st,
    run_sessions sessions Session_init = Returns s
    /\ mount_effect App_init (world s) = Returns st.
Proof.
  destruct (run_sessions_consistent sessions Session_init Session_init_consistent)
    as (s & Hrun & Hs).
  destruct (mount_effect_consistent s Hs) as (st & Hm & _).
  exists s, st. auto.
Qed.

Lemma run_ui_flag (us : list UIEvent) :
  forall s,
    hasAcceptedDisclaimer (app s) = true ->
    localStorage.getItem disclaimer_key (world s) = Some (str "true") ->
    hasAcceptedDisclaimer (app (run_ui us s)) = true
    /\ localStorage.getItem disclaimer_key (world (run_ui us s)) = Some (str "true").
Proof.
  induction us as [| u us IH]; intros s Ha Hf; [auto |].
  rewrite run_ui_cons. destruct (ui_step_gate u s) as [_ Hstep].
  destruct (Hstep Ha Hf). now apply IH.
Qed.

Lemma run_sessions_accepted (sessions : list (list UIEvent)) :
  forall s,
    consistent s ->
    localStorage.getItem disclaimer_key (world s) = Some (str "true") ->
    exists s', run_sessions sessions s = Returns s'
               /\ consistent s'
               /\ localStorage.getItem disclaimer_key (world s') = Some (str "true").
Proof.
  induction sessions as [| us later IH]; intros s Hs Hf; [eauto |].
  cbn [run_sessions].
  destruct (mount_effect_consistent s Hs) as (st & Hm & _ & Hgate).
  rewrite decide_True in Hgate by exact Hf. destruct Hgate as [_ Hacc].
  destruct (reload_consistent s Hs) as (s1 & Hre & Hs1 & Hw & _).
  rewrite Hre.
  assert (Hst : app s1 = st).
  { unfold reload in Hre. rewrite Hm in Hre. now injection Hre as <-. }
  destruct (run_ui_flag us s1) as [Ha' Hf'];
    [now rewrite Hst | now rewrite Hw |].
  apply IH; [now apply run_ui_consistent | exact Hf'].
Qed.

(** X11. Acceptance holds across sessions: once the flag is stored on a
    device whose stored history is the serialisation of the one in the
    state, then after any number of further sessions, whatever happens in
    them, the next page load completes with the gate hidden and accepted. *)
Theorem accepted_gate_stays_hidden_across_sessions
    (sessions : list (list UIEvent)) (s : Session) :
  consistent s ->
  localStorage.getItem disclaimer_key (world s) = Some (str "true") ->
  exists s' st,
    run_sessions sessions s = Returns s'
    /\ mount_effect App_init (world s') = Returns st
    /\ showDisclaimer st = false
    /\ hasAcceptedDisclaimer st = true.
Proof.
  intros Hs Hf.
  destruct (run_sessions_accepted sessions s Hs Hf) as (s' & Hrun & Hs' & Hf').
  destruct (mount_effect_consistent s' Hs') as (st & Hm & Hh & Hgate).
  rewrite decide_True in Hgate by exact Hf'. destruct Hgate as [Hshow Hacc].
  exists s', st. auto.
Qed.

(** ** Rendering a diagnosis *)

Lemma render_condition_returns (c : JSValue) :
  render_condition c = Returns tt <-> condition_shaped c = true.
Proof.
  unfold render_condition, condition_shaped.
  destruct c as [| b | l | s | items | props];
    cbn [read bind get_prop elements_to_map];
    try (split; intros H; discriminate H).
  destruct (lookup_prop (str "commonSymptoms") props) as [[] |];
    cbn [read bind get_prop elements_to_map];
    split; intros H; first [reflexivity | discriminate H].
Qed.

Lemma render_condition_throws (c : JSValue) :
  condition_shaped c = false -> render_condition c = Throws TypeError.
Proof.
  unfold render_condition, condition_shaped.
  destruct c as [| b | l | s | items | props];
    cbn [read bind get_prop elements_to_map]; try reflexivity.
  destruct (lookup_prop (str "commonSymptoms") props) as [[] |];
    cbn [read bind get_prop elements_to_map]; intros H;
    first [reflexivity | discriminate H].
Qed.

Lemma for_each_conditions (conditions : list JSValue) :
  for_each render_condition conditions
  = if forallb condition_shaped conditions then Returns tt else Throws TypeError.
Proof.
  induction conditions as [| c cs IH]; [reflexivity |].
  cbn [for_each forallb]. destruct (condition_shaped c) eqn:Hc.
  - apply render_condition_returns in Hc. rewrite Hc. cbn. exact IH.
  - now rewrite (render_condition_throws c Hc).
Qed.

Lemma render_result_panel_object (props : list (jsstring * JSValue)) :
  render_result_panel (JObj props)
  = if panel_shaped (JObj props) then Returns tt else Throws TypeError.
Proof.
  unfold render_result_panel, panel_shaped. cbn [read bind get_prop].
  destruct (lookup_prop (str "potentialConditions") props) as [[| | | | conds |] |];
    cbn [elements_to_map bind]; try reflexivity.
  rewrite for_each_conditions.
  destruct (forallb condition_shaped conds); cbn [bind].
  - destruct (lookup_prop (str "nextSteps") props) as [[] |]; reflexivity.
  - destruct (lookup_prop (str "nextSteps") props) as [[] |]; reflexivity.
Qed.

(** X12. The result panel is built without an exception exactly for a
    diagnosis of the shape it reads: arrays under [potentialConditions] and
    [nextSteps], and every condition an object with an array under
    [commonSymptoms]. For any other value that is not [null] the component
    function throws a TypeError. *)
Theorem result_panel_needs_shape (v : JSValue) :
  v <> JNull ->
  render_result_panel v
  = if panel_shaped v then Returns tt else Throws TypeError.
Proof.
  intros Hv. destruct v as [| b | l | s | items | props];
    [congruence | reflexivity | reflexivity | reflexivity | reflexivity |].
  apply render_result_panel_object.
Qed.

Lemma handleDiagnosis_settle_shows
    (p : Pending) (reply : Reply) (uuid : jsstring) (now : N)
    (st : AppState) (w : World) (data : JSValue) :
  (getDiagnosis_settle reply w).1 = Returns data ->
  let st' := (handleDiagnosis_settle p reply uuid now st w).1 in
  isLoading st' = false /\ result st' = data.
Proof.
  intros Hd. cbv zeta. unfold handleDiagnosis_settle.
  rewrite (getDiagnosis_settle_returns reply w data Hd).
  destruct (spread (seen_history p)); split; reflexivity.
Qed.

(** X13. Nothing checks the diagnosis between the reply and the screen. When
    a submission is answered with a value that is truthy but lacks the shape
    the result panel reads, the handler puts it on display with the spinner
    off, the result panel is the one to render, and rendering it throws a
    TypeError. *)
Theorem unshaped_diagnosis_breaks_result_panel
    (reply : Reply) (uuid : jsstring) (now : N)
    (st : AppState) (w : World) (data : JSValue) :
  trim (symptoms st) <> [] ->
  (getDiagnosis (symptoms st) reply w).1 = Returns data ->
  truthy_value data = Some true ->
  panel_shaped data = false ->
  let st' := (handleDiagnosis reply uuid now st w).1 in
  result st' = data
  /\ panel st' = Some ResultPanel
  /\ render_result_panel (result st') = Throws TypeError.
Proof.
  intros Hne Hd Ht Hs. cbv zeta.
  unfold handleDiagnosis. rewrite handleDiagnosis_submit_accepted by exact Hne.
  unfold getDiagnosis in Hd.
  destruct (handleDiagnosis_settle_shows
              {| sent_symptoms := symptoms st; seen_history := history st |}
              reply uuid now (setIsLoading true st)
              (getDiagnosis_send (symptoms st) w) data Hd) as [Hl Hr].
  split; [exact Hr |]. split.
  - unfold panel. now rewrite Hl, Hr, Ht.
  - rewrite Hr. destruct data as [| b | l | s | items | props];
      try discriminate Ht; try reflexivity.
    now rewrite render_result_panel_object, Hs.
Qed.

Lemma unshaped_diagnosis_breaks_result_panel_witness :
  let st := setSymptoms example_symptoms App_init in
  let st' := (handleDiagnosis (Fulfilled (Some [])) (str "id-1") 1700000000000
                st World_init).1 in
  result st' = JObj []
  /\ panel st' = Some ResultPanel
  /\ render_result_panel (result st') = Throws TypeError.
Proof.
  apply (unshaped_diagnosis_breaks_result_panel
           (Fulfilled (Some [])) (str "id-1") 1700000000000
           (setSymptoms example_symptoms App_init) World_init (JObj [])).
  - vm_compute. discriminate.
  - vm_compute. reflexivity.
  - reflexivity.
  - reflexivity.
Defined.

Lemma result_panel_needs_shape_witness :
  example_diagnosis <> JNull
  /\ render_result_panel example_diagnosis = Returns tt.
Proof.
  split; [discriminate |].
  exact (result_panel_needs_shape example_diagnosis ltac:(discriminate)).
Defined.

(** ** Rendering the history *)

Lemma render_history_item_entry (e : SymptomEntry) :
  render_history_item (entry_object e)
  = if has_result e then Returns tt else Throws TypeError.
Proof.
  unfold render_history_item, entry_object, has_result.
  destruct e as [i t sy r]. cbn [entry_id entry_timestamp entry_symptoms entry_result].
  change (read (str "id") (Some (JObj ?p))) with (Returns (lookup_prop (str "id") p)).
  change (read (str "symptoms") (Some (JObj ?p)))
    with (Returns (lookup_prop (str "symptoms") p)).
  change (read (str "timestamp") (Some (JObj ?p)))
    with (Returns (lookup_prop (str "timestamp") p)).
  change (read (str "result") (Some (JObj ?p)))
    with (Returns (lookup_prop (str "result") p)).
  cbn [bind].
  replace (lookup_prop (str "timestamp") _) with (Some (JNum (digits_of_N t)))
    by reflexivity.
  replace (lookup_prop (str "result") _) with (Some r) by reflexivity.
  replace (lookup_prop (str "id") _) with (Some (JStr i)) by reflexivity.
  cbn [to_primitive to_primitive_throws bind].
  destruct r; reflexivity.
Qed.

Lemma render_history_list_entries (entries : list SymptomEntry) :
  render_history_list (List.map entry_object entries)
  = if forallb has_result entries then Returns tt else Throws TypeError.
Proof.
  unfold render_history_list.
  induction entries as [| e es IH]; [reflexivity |].
  cbn [List.map for_each forallb]. rewrite render_history_item_entry.
  destruct (has_result e); [exact IH | reflexivity].
Qed.

(** X14. The history list reads [item.result.severity] of every entry, and
    the handler stores whatever diagnosis arrived. After successful
    submissions from an empty history, the list is built without an
    exception exactly when none of the ten newest diagnoses is [null];
    otherwise the component function throws a TypeError. *)
Theorem null_diagnosis_breaks_history_list
    (subs : list Submission) (entries : list SymptomEntry)
    (st : AppState) (w : World) :
  history st = JArr [] ->
  Forall2 successful subs entries ->
  exists items,
    history (submit_all subs (st, w)).1 = JArr items
    /\ render_history_list items
       = if forallb has_result (firstn 10 (rev entries))
         then Returns tt else Throws TypeError.
Proof.
  intros Hh Hall.
  pose proof (submit_all_history subs entries Hall st w [] Hh) as Hhist.
  rewrite app_nil_r in Hhist. specialize (Hhist ltac:(simpl; lia)).
  eexists. split; [exact Hhist |].
  rewrite <- map_rev, firstn_map.
  apply render_history_list_entries.
Qed.

(** ** The theorems above at sample inputs *)

Lemma gate_stays_until_accepted_witness :
  showDisclaimer (app (run_ui undecided_visit Session_init)) = true
  /\ hasAcceptedDisclaimer (app (run_ui undecided_visit Session_init)) = false.
Proof.
  apply (gate_stays_until_accepted undecided_visit Session_init); reflexivity.
Defined.

Lemma acceptance_is_permanent_witness :
  hasAcceptedDisclaimer
    (app (run_ui (UAccept :: [UClose; UOpen; UBackdrop; UClear]) Session_init)) = true
  /\ localStorage.getItem disclaimer_key
       (world (run_ui (UAccept :: [UClose; UOpen; UBackdrop; UClear]) Session_init))
     = Some (str "true").
Proof.
  apply (acceptance_is_permanent [UClose; UOpen; UBackdrop; UClear] Session_init).
  reflexivity.
Defined.

Lemma loading_iff_request_pending_witness :
  (in_flight (run_ui busy_visit Session_init) = []
   /\ isLoading (app (run_ui busy_visit Session_init)) = false)
  \/ (exists p, in_flight (run_ui busy_visit Session_init) = [p]
                /\ isLoading (app (run_ui busy_visit Session_init)) = true).
Proof.
  apply (loading_iff_request_pending busy_visit Session_init); reflexivity.
Defined.

Lemma history_bounded_under_any_events_witness :
  bounded_history (history (app (run_ui busy_visit Session_init)))
  /\ stored_bounded (world (run_ui busy_visit Session_init)).
Proof.
  apply (history_bounded_under_any_events busy_visit Session_init).
  - split; [| split].
    + exists []. split; [reflexivity | constructor].
    + constructor.
    + reflexivity.
  - split; [exists []; split; [reflexivity | simpl; lia] | constructor].
Defined.

Lemma select_shows_stored_result_witness :
  let out := submit_all (List.map nth_submission eleven) (App_init, World_init) in
  on_select 3 out = (setResult (entry_result (nth_entry 8)) out.1, out.2).
Proof.
  apply (select_shows_stored_result
           (List.map nth_submission eleven) (List.map nth_entry eleven)
           App_init World_init 3 (nth_entry 8));
    [reflexivity | exact eleven_successful | lia | reflexivity].
Defined.

Lemma cleared_history_returns_with_late_reply_witness :
  let reply := Fulfilled (Some odd_reply) in
  let cleared := run_ui [USubmit; UClear] returning_session in
  let settled :=
    run_ui [USubmit; UClear; UReply 0 reply (str "id-1") 1700000000000]
      returning_session in
  history (app cleared) = JArr []
  /\ localStorage.getItem history_key (world cleared) = None
  /\ history (app settled)
     = JArr (entry_object {| entry_id := str "id-1"; entry_timestamp := 1700000000000;
                             entry_symptoms := symptoms (app returning_session);
                             entry_result :=
                               JObj [(str "severity", JStr (str "Catastrophic"))] |}
             :: firstn 9 [entry_object {| entry_id := str "id-0";
                                          entry_timestamp := 1699999999000;
                                          entry_symptoms := str "cough";
                                          entry_result := shown_result |}])
  /\ localStorage.getItem history_key (world settled)
     = Some (JSON.stringify (history (app settled))).
Proof.
  apply (cleared_history_returns_with_late_reply returning_session
           (Fulfilled (Some odd_reply)) (str "id-1") 1700000000000
           (JObj [(str "severity", JStr (str "Catastrophic"))])
           [entry_object {| entry_id := str "id-0";
                            entry_timestamp := 1699999999000;
                            entry_symptoms := str "cough";
                            entry_result := shown_result |}]).
  - reflexivity.
  - reflexivity.
  - vm_compute. discriminate.
  - reflexivity.
  - discriminate.
  - intros w. reflexivity.
Defined.

Lemma reload_restores_history_witness :
  exists st,
    mount_effect App_init (world (run_ui example_visit Session_init)) = Returns st
    /\ history st = history (app (run_ui example_visit Session_init))
    /\ plain_numbers (history st).
Proof.
  apply (reload_restores_history example_visit Session_init).
  - split; [| split].
    + exists []. split; [reflexivity | constructor].
    + constructor.
    + reflexivity.
  - split; [exact I | constructor].
  - repeat constructor.
    intros w data H. vm_compute in H. injection H as <-. vm_compute. tauto.
Defined.

Lemma accepted_gate_stays_hidden_across_sessions_witness :
  exists s' st,
    run_sessions [example_visit; [UOpen; UClear]] (run_ui [UAccept] Session_init)
    = Returns s'
    /\ mount_effect App_init (world s') = Returns st
    /\ showDisclaimer st = false /\ hasAcceptedDisclaimer st = true.
Proof.
  apply (accepted_gate_stays_hidden_across_sessions
           [example_visit; [UOpen; UClear]] (run_ui [UAccept] Session_init)).
  - split; [| split].
    + exists []. split; [reflexivity | constructor].
    + constructor.
    + reflexivity.
  - reflexivity.
Defined.

Lemma null_diagnosis_breaks_history_list_witness :
  exists items,
    history (submit_all [nth_submission 1; null_submission; nth_submission 2]
               (App_init, World_init)).1 = JArr items
    /\ render_history_list items
       = if forallb has_result (firstn 10 (rev [nth_entry 1; null_entry; nth_entry 2]))
         then Returns tt else Throws TypeError.
Proof.
  apply (null_diagnosis_breaks_history_list
           [nth_submission 1; null_submission; nth_submission 2]
           [nth_entry 1; null_entry; nth_entry 2] App_init World_init).
  - reflexivity.
  - repeat (constructor;
            [repeat split; try (intros w; reflexivity); vm_compute; discriminate |]).
    constructor.
Defined.
